(** * The ECS deployment streamer of [internal/pkg/stream/ecs.go]

    A shallow embedding of the streamer that polls an ECS service
    description until the primary deployment is completed, and of the
    helpers it relies on, followed by the properties of the streamer.

    Conventions of the embedding.
    - A Go [string] is a sequence of bytes: Rocq's [string].
    - A [time.Time] is the instant it denotes, counted in nanoseconds from
      the zero [time.Time]; [Before] is [<] on instants.
    - A Go function that may panic returns an [outcome]; a panic carries no
      state, as nothing in the package recovers from one.
    - A channel is the record of whether it is closed and of the values sent
      on it so far. A send on an open channel is recorded as accepted:
      whether a receiver ever shows up is outside of the model.
    - The describe call belongs to the client; [Fetch] takes the behaviour
      of the client at the time of the call as an argument. *)

From Stdlib Require Import ZArith Lia Ascii.
From stdpp Require Import base option list gmap strings.

Local Open Scope Z_scope.

(** ** Go runtime: panics *)

Inductive panic : Type :=
| IndexOutOfRange (index len : nat)
| CloseOfClosedChannel
| SendOnClosedChannel.

Inductive outcome (A : Type) : Type :=
| Returned (a : A)
| Panicked (p : panic).

Arguments Returned {A} a.
Arguments Panicked {A} p.

#[global] Instance outcome_ret : MRet outcome := @Returned.

#[global] Instance outcome_bind : MBind outcome :=
  fun A B f m =>
    match m with
    | Returned a => f a
    | Panicked p => Panicked p
    end.

Definition returns {A : Type} (m : outcome A) : bool :=
  match m with
  | Returned _ => true
  | Panicked _ => false
  end.

(** [l[i]] on a slice: a run-time panic when [i] is out of range. *)
Definition index {A : Type} (l : list A) (i : nat) : outcome A :=
  match l !! i with
  | Some x => Returned x
  | None => Panicked (IndexOutOfRange i (length l))
  end.

(** ** Go runtime: channels *)

Record chan (A : Type) : Type := mkChan {
  chan_closed : bool;
  chan_sent : list A
}.

Arguments mkChan {A} _ _.
Arguments chan_closed {A} _.
Arguments chan_sent {A} _.

(** [make(chan A)] *)
Definition make_chan (A : Type) : chan A := mkChan false [].

(** [close(c)]: closing a closed channel panics. *)
Definition close {A : Type} (c : chan A) : outcome (chan A) :=
  if chan_closed c then Panicked CloseOfClosedChannel
  else Returned (mkChan true (chan_sent c)).

(** [c <- v]: sending on a closed channel panics. *)
Definition send {A : Type} (c : chan A) (v : A) : outcome (chan A) :=
  if chan_closed c then Panicked SendOnClosedChannel
  else Returned (mkChan false (chan_sent c ++ [v])).

(** ** Package [errors] and [fmt.Errorf] with the verb [%w] *)

Inductive error : Type :=
| errorString (s : string)
| wrapError (msg : string) (err : error).

Definition Error (e : error) : string :=
  match e with
  | errorString s => s
  | wrapError msg _ => msg
  end.

Definition Unwrap (e : error) : option error :=
  match e with
  | errorString _ => None
  | wrapError _ err => Some err
  end.

(** [fmt.Errorf(prefix + ": %w", err)] *)
Definition Errorf_w (prefix : string) (err : error) : error :=
  wrapError (prefix +:+ ": " +:+ Error err) err.

(** ** Package [strings] *)

Module strings.

(** [strings.HasPrefix(s, prefix)] *)
Fixpoint HasPrefix (s prefix : string) {struct prefix} : bool :=
  match prefix, s with
  | EmptyString, _ => true
  | String _ _, EmptyString => false
  | String a prefix', String b s' =>
      if decide (a = b) then HasPrefix s' prefix' else false
  end.

(** [strings.Contains(s, substr)]: [substr] starts at some position of
    [s]. *)
Fixpoint Contains (s substr : string) : bool :=
  HasPrefix s substr ||
  match s with
  | EmptyString => false
  | String _ s' => Contains s' substr
  end.

(** [strings.Split(s, sep)] for a non-empty [sep]: the pieces of [s]
    between the occurrences of [sep], found from left to right without
    overlap. [skip] counts the bytes of a separator still to be passed;
    the head of the result is the piece being read. *)
Fixpoint split_from (sep : string) (skip : nat) (s : string) : list string :=
  match s with
  | EmptyString => [EmptyString]
  | String c s' =>
      match skip with
      | S k => split_from sep k s'
      | O =>
          if HasPrefix s sep
          then EmptyString :: split_from sep (String.length sep - 1) s'
          else
            match split_from sep O s' with
            | piece :: pieces => String c piece :: pieces
            | [] => [String c EmptyString]
            end
      end
  end.

Definition Split (s sep : string) : list string := split_from sep O s.

(** [strings.Join(elems, sep)] *)
Fixpoint Join (elems : list string) (sep : string) : string :=
  match elems with
  | [] => EmptyString
  | elem :: rest =>
      match rest with
      | [] => elem
      | _ :: _ => elem +:+ sep +:+ Join rest sep
      end
  end.

End strings.

(** ** Package [aws]: reading through the pointers of the SDK *)

(** An instant, in nanoseconds from the zero [time.Time]. *)
Definition time_Time : Type := Z.

Definition time_zero : time_Time := 0.

(** [t.Before(u)] *)
Definition Before (t u : time_Time) : bool := t <? u.

(** [t.Add(d)] *)
Definition time_Add (t : time_Time) (d : Z) : time_Time := t + d.

Module aws.

(** [aws.StringValue]: the empty string for a nil pointer. *)
Definition StringValue (p : option string) : string := default EmptyString p.

(** [aws.Int64Value]: zero for a nil pointer. *)
Definition Int64Value (p : option Z) : Z := default 0 p.

(** [aws.TimeValue]: the zero time for a nil pointer. *)
Definition TimeValue (p : option time_Time) : time_Time := default time_zero p.

End aws.

(** ** The service description returned by the describe call *)

(** Modelled from the spec: the types of the describe result, which the AWS
    SDK declares and [ecs.go] only reads. Section 6 of the specification
    lists a deployment record as status, task-definition identifier,
    desired, running, pending and failed counts and rollout state, and an
    event record as identifier, message and creation timestamp. Every field
    is a pointer in the SDK, read through the helpers of [aws]; the
    pointers to the description, to a deployment and to an event are taken
    to be non-nil, as the SDK returns them. *)
Module ecs.

Record Deployment : Type := mkDeployment {
  Status : option string;
  TaskDefinition : option string;
  DesiredCount : option Z;
  RunningCount : option Z;
  FailedTasks : option Z;
  PendingCount : option Z;
  RolloutState : option string
}.

Record ServiceEvent : Type := mkServiceEvent {
  CreatedAt : option time_Time;
  Id : option string;
  Message : option string
}.

Record Service : Type := mkService {
  Deployments : list Deployment;
  Events : list ServiceEvent
}.

End ecs.

(** [ECSServiceDescriber.Service(clusterName, serviceName)]: a description,
    or an error. *)
Definition ECSServiceDescriber : Type := string -> string -> ecs.Service + error.

(** ** Package [stream] *)

Definition ecsPrimaryDeploymentStatus : string := "PRIMARY".

Definition ecsEventFailureKeywords : list string :=
  ["fail"; "unhealthy"; "error"; "throttle"; "unable"; "missing"].

(** [int(x)] for an [int64] [x]: the identity where [int] has 64 bits. *)
Definition int_of_int64 (x : Z) : Z := x.

Record ECSDeployment : Type := mkECSDeployment {
  Status : string;
  TaskDefRevision : string;
  DesiredCount : Z;
  RunningCount : Z;
  FailedCount : Z;
  PendingCount : Z;
  RolloutState : string
}.

Record ECSService : Type := mkECSService {
  Deployments : list ECSDeployment;
  LatestFailureEvents : list string
}.

(** The streamer, without its client (see [Fetch]). *)
Record ECSDeploymentStreamer : Type := mkStreamer {
  cluster : string;
  service : string;
  deploymentCreationTime : time_Time;
  subscribers : list (chan ECSService);
  done : chan unit;
  pastEventIDs : gmap string bool;
  eventsToFlush : list ECSService
}.

Definition NewECSDeploymentStreamer (cluster service : string)
    (deploymentCreationTime : time_Time) : ECSDeploymentStreamer :=
  {| cluster := cluster;
     service := service;
     deploymentCreationTime := deploymentCreationTime;
     subscribers := [];
     done := make_chan unit;
     pastEventIDs := ∅;
     eventsToFlush := [] |}.

(** [Subscribe] registers a new channel; the caller gets its receiving end,
    which is the position of the channel among the subscribers. *)
Definition Subscribe (s : ECSDeploymentStreamer) : ECSDeploymentStreamer * nat :=
  ({| cluster := cluster s;
      service := service s;
      deploymentCreationTime := deploymentCreationTime s;
      subscribers := subscribers s ++ [make_chan ECSService];
      done := done s;
      pastEventIDs := pastEventIDs s;
      eventsToFlush := eventsToFlush s |},
   length (subscribers s)).

Definition parseRevisionFromTaskDefARN (arn : string) : outcome string :=
  familyName ← index (strings.Split arn "/") 1;
  index (strings.Split familyName ":") 1.

Definition isFailureServiceEvent (msg : string) : bool :=
  existsb (fun kw => strings.Contains msg kw) ecsEventFailureKeywords.

(** The loop of [Fetch] over the deployments of the description: the
    deployments built so far and the channel [done]. *)
Definition fetch_deployment (acc : list ECSDeployment * chan unit)
    (deployment : ecs.Deployment) : outcome (list ECSDeployment * chan unit) :=
  let status := aws.StringValue (ecs.Status deployment) in
  let desiredCount := aws.Int64Value (ecs.DesiredCount deployment) in
  let runningCount := aws.Int64Value (ecs.RunningCount deployment) in
  revision ← parseRevisionFromTaskDefARN
                (aws.StringValue (ecs.TaskDefinition deployment));
  let deployments :=
    acc.1 ++ [{| Status := status;
                 TaskDefRevision := revision;
                 DesiredCount := int_of_int64 desiredCount;
                 RunningCount := int_of_int64 runningCount;
                 FailedCount :=
                   int_of_int64 (aws.Int64Value (ecs.FailedTasks deployment));
                 PendingCount :=
                   int_of_int64 (aws.Int64Value (ecs.PendingCount deployment));
                 RolloutState := aws.StringValue (ecs.RolloutState deployment) |}] in
  if bool_decide (status = ecsPrimaryDeploymentStatus)
     && bool_decide (desiredCount = runningCount)
  then done' ← close acc.2; mret (deployments, done')
  else mret (deployments, acc.2).

Fixpoint fetch_deployments (deployments : list ecs.Deployment)
    (acc : list ECSDeployment * chan unit)
    : outcome (list ECSDeployment * chan unit) :=
  match deployments with
  | [] => mret acc
  | deployment :: rest =>
      acc' ← fetch_deployment acc deployment;
      fetch_deployments rest acc'
  end.

(** The loop of [Fetch] over the events of the description: the ledger of
    event identifiers and the failure messages of this call. Each [break]
    of the source returns what has been gathered so far. *)
Fixpoint fetch_events (deploymentCreationTime : time_Time)
    (events : list ecs.ServiceEvent) (pastEventIDs : gmap string bool)
    (failureMsgs : list string) : gmap string bool * list string :=
  match events with
  | [] => (pastEventIDs, failureMsgs)
  | event :: rest =>
      if Before (aws.TimeValue (ecs.CreatedAt event)) deploymentCreationTime
      then (pastEventIDs, failureMsgs)
      else
        let id := aws.StringValue (ecs.Id event) in
        match pastEventIDs !! id with
        | Some _ => (pastEventIDs, failureMsgs)
        | None =>
            let msg := aws.StringValue (ecs.Message event) in
            let failureMsgs :=
              if isFailureServiceEvent msg then failureMsgs ++ [msg]
              else failureMsgs in
            fetch_events deploymentCreationTime rest
              (<[id := true]> pastEventIDs) failureMsgs
        end
  end.

(** The loops of [Notify]: one event to every subscriber, then every
    event. *)
Fixpoint notify_event (event : ECSService) (subs : list (chan ECSService))
    : outcome (list (chan ECSService)) :=
  match subs with
  | [] => mret []
  | sub :: rest =>
      sub' ← send sub event;
      rest' ← notify_event event rest;
      mret (sub' :: rest')
  end.

Fixpoint notify_events (events : list ECSService)
    (subs : list (chan ECSService)) : outcome (list (chan ECSService)) :=
  match events with
  | [] => mret subs
  | event :: rest =>
      subs' ← notify_event event subs;
      notify_events rest subs'
  end.

Definition Notify (s : ECSDeploymentStreamer) : outcome ECSDeploymentStreamer :=
  subs ← notify_events (eventsToFlush s) (subscribers s);
  mret {| cluster := cluster s;
          service := service s;
          deploymentCreationTime := deploymentCreationTime s;
          subscribers := subs;
          done := done s;
          pastEventIDs := pastEventIDs s;
          eventsToFlush := [] |}.

Fixpoint close_all (subs : list (chan ECSService))
    : outcome (list (chan ECSService)) :=
  match subs with
  | [] => mret []
  | sub :: rest =>
      sub' ← close sub;
      rest' ← close_all rest;
      mret (sub' :: rest')
  end.

Definition Close (s : ECSDeploymentStreamer) : outcome ECSDeploymentStreamer :=
  subs ← close_all (subscribers s);
  mret {| cluster := cluster s;
          service := service s;
          deploymentCreationTime := deploymentCreationTime s;
          subscribers := subs;
          done := done s;
          pastEventIDs := pastEventIDs s;
          eventsToFlush := eventsToFlush s |}.

Definition Done (s : ECSDeploymentStreamer) : chan unit := done s.

(** The Completion Signal has been given: [done] is closed. *)
Definition signaled (s : ECSDeploymentStreamer) : bool := chan_closed (Done s).

Section polling.

(** The interval between two calls of [Fetch], a constant of the package
    declared outside of [ecs.go]. *)
Variable streamerFetchIntervalDuration : Z.

(** [Fetch], given the client as it answers at this call and the reading
    of the clock. The result is the streamer after the call with the pair
    [(next, err)] that the call returns. *)
Definition Fetch (client : ECSServiceDescriber) (now : time_Time)
    (s : ECSDeploymentStreamer)
    : outcome (ECSDeploymentStreamer * (time_Time * option error)) :=
  match client (cluster s) (service s) with
  | inr err =>
      mret (s, (time_zero, Some (Errorf_w "fetch service description" err)))
  | inl out =>
      acc ← fetch_deployments (ecs.Deployments out) ([], done s);
      let evs :=
        fetch_events (deploymentCreationTime s) (ecs.Events out)
          (pastEventIDs s) [] in
      mret ({| cluster := cluster s;
               service := service s;
               deploymentCreationTime := deploymentCreationTime s;
               subscribers := subscribers s;
               done := acc.2;
               pastEventIDs := evs.1;
               eventsToFlush :=
                 eventsToFlush s ++
                 [{| Deployments := acc.1; LatestFailureEvents := evs.2 |}] |},
            (time_Add now streamerFetchIntervalDuration, None))
  end.

(** *** Sequences of calls on one streamer *)

Inductive call : Type :=
| CallSubscribe
| CallFetch (client : ECSServiceDescriber) (now : time_Time)
| CallNotify
| CallClose.

Definition step (s : ECSDeploymentStreamer) (c : call)
    : outcome ECSDeploymentStreamer :=
  match c with
  | CallSubscribe => mret (Subscribe s).1
  | CallFetch client now => r ← Fetch client now s; mret r.1
  | CallNotify => Notify s
  | CallClose => Close s
  end.

Fixpoint run (s : ECSDeploymentStreamer) (cs : list call)
    : outcome ECSDeploymentStreamer :=
  match cs with
  | [] => mret s
  | c :: cs' => s' ← step s c; run s' cs'
  end.

(** The states after each call of a sequence, up to the first panic. *)
Fixpoint states (s : ECSDeploymentStreamer) (cs : list call)
    : list ECSDeploymentStreamer :=
  match cs with
  | [] => []
  | c :: cs' =>
      match step s c with
      | Returned s' => s' :: states s' cs'
      | Panicked _ => []
      end
  end.

End polling.

(** ** The words of the specification *)

(** The byte [c] does not occur in [s]. *)
Definition no_byte (c : ascii) (s : string) : Prop :=
  strings.Contains s (String c "") = false.

(** The part of [s] after the last occurrence of the byte [c], when [c]
    occurs in [s]. *)
Fixpoint after_last (c : ascii) (s : string) : option string :=
  match s with
  | EmptyString => None
  | String b s' =>
      match after_last c s' with
      | Some r => Some r
      | None => if decide (b = c) then Some s' else None
      end
  end.

(** The revision as section 6 of the specification words it: the substring
    after the last [:] following the last [/]. *)
Definition spec_revision (arn : string) : option string :=
  after_last "/" arn ≫= after_last ":".

(** The shape [arn:...:task-definition/<family>:<revision>]: one [/], and
    one [:] after it. *)
Record task_def_arn (arn pre family revision : string) : Prop := {
  arn_shape : arn = pre +:+ "/" +:+ family +:+ ":" +:+ revision;
  pre_no_slash : no_byte "/" pre;
  family_no_slash : no_byte "/" family;
  family_no_colon : no_byte ":" family;
  revision_no_slash : no_byte "/" revision;
  revision_no_colon : no_byte ":" revision
}.

(** The identifier and the message of an event, as [Fetch] reads them. *)
Definition event_id (event : ecs.ServiceEvent) : string :=
  aws.StringValue (ecs.Id event).

Definition event_message (event : ecs.ServiceEvent) : string :=
  aws.StringValue (ecs.Message event).

(** An event at which the processing stops: it was created strictly before
    the deployment, or its identifier is in the ledger already. *)
Definition stops (creation : time_Time) (ledger : gmap string bool)
    (event : ecs.ServiceEvent) : Prop :=
  aws.TimeValue (ecs.CreatedAt event) < creation
  ∨ is_Some (ledger !! event_id event).

(** The ledger once the identifiers of [events] are recorded, in order. *)
Definition record_ids (ledger : gmap string bool)
    (events : list ecs.ServiceEvent) : gmap string bool :=
  foldl (fun m event => <[event_id event := true]> m) ledger events.

(** [events] is cut into the events that are processed and the rest, which
    is empty or starts with the first event at which the processing stops,
    the ledger being the one at the time each event is looked at. *)
Definition stop_point (creation : time_Time) (ledger : gmap string bool)
    (events processed rest : list ecs.ServiceEvent) : Prop :=
  events = processed ++ rest
  ∧ (∀ before event after,
       processed = before ++ event :: after →
       ¬ stops creation (record_ids ledger before) event)
  ∧ (rest = []
     ∨ ∃ event rest', rest = event :: rest'
         ∧ stops creation (record_ids ledger processed) event).

(** A deployment that completes the rollout: its status is [PRIMARY] and
    its desired count is its running count. *)
Definition completed_primary (deployment : ecs.Deployment) : bool :=
  bool_decide (aws.StringValue (ecs.Status deployment) = "PRIMARY")
  && bool_decide (aws.Int64Value (ecs.DesiredCount deployment)
                  = aws.Int64Value (ecs.RunningCount deployment)).

(** The task-definition identifier of a deployment has the expected shape. *)
Definition well_formed (deployment : ecs.Deployment) : Prop :=
  ∃ pre family revision,
    task_def_arn (aws.StringValue (ecs.TaskDefinition deployment))
      pre family revision.

(** The number of times the Completion Signal goes from open to signaled
    along a sequence of readings of it. *)
Fixpoint signal_transitions (readings : list bool) : nat :=
  match readings with
  | [] => O
  | a :: rest =>
      match rest with
      | [] => O
      | b :: _ => (if negb a && b then 1 else 0) + signal_transitions rest
      end
  end%nat.

(** The streamer [s] with another buffer. *)
Definition with_buffer (s : ECSDeploymentStreamer) (buffer : list ECSService)
    : ECSDeploymentStreamer :=
  {| cluster := cluster s;
     service := service s;
     deploymentCreationTime := deploymentCreationTime s;
     subscribers := subscribers s;
     done := done s;
     pastEventIDs := pastEventIDs s;
     eventsToFlush := buffer |}.

(** What a channel has been sent once [events] are delivered on it. *)
Definition delivered (events : list ECSService) (sub : chan ECSService)
    : chan ECSService :=
  mkChan false (chan_sent sub ++ events).

(** Every value of the ledger is [true]. *)
Definition all_true (ledger : gmap string bool) : Prop :=
  ∀ id v, ledger !! id = Some v → v = true.

(** The deployment that [Fetch] builds from a deployment of the description
    and the revision parsed from its task definition. *)
Definition normalized (deployment : ecs.Deployment) (revision : string)
    : ECSDeployment :=
  {| Status := aws.StringValue (ecs.Status deployment);
     TaskDefRevision := revision;
     DesiredCount := aws.Int64Value (ecs.DesiredCount deployment);
     RunningCount := aws.Int64Value (ecs.RunningCount deployment);
     FailedCount := aws.Int64Value (ecs.FailedTasks deployment);
     PendingCount := aws.Int64Value (ecs.PendingCount deployment);
     RolloutState := aws.StringValue (ecs.RolloutState deployment) |}.

(** ** Descriptions and clients of the examples *)

Definition sample_arn : string :=
  "arn:aws:ecs:us-west-2:1111:task-definition/webapp-test-frontend:3".

Definition sample_deployment (status : string) (desired running : Z)
    : ecs.Deployment :=
  {| ecs.Status := Some status;
     ecs.TaskDefinition := Some sample_arn;
     ecs.DesiredCount := Some desired;
     ecs.RunningCount := Some running;
     ecs.FailedTasks := Some 0;
     ecs.PendingCount := Some (desired - running);
     ecs.RolloutState := None |}.

Definition sample_event (createdAt : time_Time) (id message : string)
    : ecs.ServiceEvent :=
  {| ecs.CreatedAt := Some createdAt;
     ecs.Id := Some id;
     ecs.Message := Some message |}.

(** The primary deployment runs its three tasks. *)
Definition completed_service : ecs.Service :=
  {| ecs.Deployments := [sample_deployment "PRIMARY" 3 3];
     ecs.Events := [] |}.

(** A deployment created at instant 10 is in progress; the third event is
    older than the deployment. *)
Definition rolling_service : ecs.Service :=
  {| ecs.Deployments :=
       [sample_deployment "PRIMARY" 3 1; sample_deployment "ACTIVE" 3 3];
     ecs.Events :=
       [sample_event 20 "e3" "task failed to start";
        sample_event 15 "e2" "service has started 1 tasks";
        sample_event 5 "e1" "service was unable to place a task";
        sample_event 25 "e4" "task failed health checks"] |}.

(** A client that answers with [out], and one that fails with [err]. *)
Definition describes (out : ecs.Service) : ECSServiceDescriber :=
  fun _ _ => inl out.

Definition fails_with (err : error) : ECSServiceDescriber :=
  fun _ _ => inr err.

Definition sample_streamer : ECSDeploymentStreamer :=
  NewECSDeploymentStreamer "cluster" "service" 10.

(** The sample streamer after the calls [cs], 3 seconds apart. *)
Definition streamer_after (cs : list call) : ECSDeploymentStreamer :=
  match run 3000000000 sample_streamer cs with
  | Returned s => s
  | Panicked _ => sample_streamer
  end.

(** Two listeners, and two snapshots in the buffer. *)
Definition two_listeners_two_snapshots : ECSDeploymentStreamer :=
  streamer_after
    [CallSubscribe; CallSubscribe;
     CallFetch (describes rolling_service) 100;
     CallFetch (describes completed_service) 200].

(** No listener, and one snapshot in the buffer. *)
Definition no_listener_one_snapshot : ECSDeploymentStreamer :=
  streamer_after [CallFetch (describes rolling_service) 100].

(** ** Calls of a polling loop *)

(** The calls of a loop that polls and publishes: [Fetch] and [Notify]. *)
Definition polls (c : call) : bool :=
  match c with
  | CallFetch _ _ | CallNotify => true
  | CallSubscribe | CallClose => false
  end.

(** A [Fetch] whose describe call, for this cluster and service, answers
    with a description. *)
Definition describe_succeeds (cluster service : string) (c : call) : bool :=
  match c with
  | CallFetch client _ =>
      match client cluster service with
      | inl _ => true
      | inr _ => false
      end
  | _ => false
  end.

(** A listener once closed: what it has been sent stays. *)
Definition closed_listener (sub : chan ECSService) : chan ECSService :=
  mkChan true (chan_sent sub).

(** ** Further descriptions of the examples *)

(** The second deployment comes without a task definition. *)
Definition unparsable_service : ecs.Service :=
  {| ecs.Deployments :=
       [sample_deployment "PRIMARY" 3 1;
        {| ecs.Status := Some "ACTIVE";
           ecs.TaskDefinition := None;
           ecs.DesiredCount := Some 3;
           ecs.RunningCount := Some 3;
           ecs.FailedTasks := None;
           ecs.PendingCount := None;
           ecs.RolloutState := None |}];
     ecs.Events := [] |}.

(** Two deployments are primary and run all their tasks. *)
Definition twice_completed_service : ecs.Service :=
  {| ecs.Deployments :=
       [sample_deployment "PRIMARY" 3 3; sample_deployment "PRIMARY" 1 1];
     ecs.Events := [] |}.

(** From [s] to [s'] every listener stays open, and what it has been sent
    followed by what waits in the buffer has grown by [fetched]. *)
Definition streams_extended (s s' : ECSDeploymentStreamer)
    (fetched : list ECSService) : Prop :=
  Forall2
    (fun sub sub' =>
       chan_closed sub' = false
       ∧ chan_sent sub' ++ eventsToFlush s'
         = chan_sent sub ++ eventsToFlush s ++ fetched)
    (subscribers s) (subscribers s').

(** The first event comes without a creation time; a recent failure
    follows it. *)
Definition undated_service : ecs.Service :=
  {| ecs.Deployments := [sample_deployment "PRIMARY" 3 1];
     ecs.Events :=
       [{| ecs.CreatedAt := None;
           ecs.Id := Some "e5";
           ecs.Message := Some "service is unhealthy" |};
        sample_event 30 "e6" "task failed to start"] |}.


(** * Properties *)

(** An equation [m = Returned b] where [m] has been computed down to a
    returned value [a]: [b] is replaced by [a]. *)
Ltac returned :=
  simpl; unfold mret, outcome_ret;
  let H := fresh in intros H; injection H as <-.

(** ** Strings *)

Module strings_facts.
Import strings.

Lemma app_nil_l (b : string) : "" +:+ b = b.
Proof. reflexivity. Qed.

Lemma app_cons (x : ascii) (a b : string) :
  String x a +:+ b = String x (a +:+ b).
Proof. reflexivity. Qed.

Lemma app_assoc (a b c : string) : (a +:+ b) +:+ c = a +:+ b +:+ c.
Proof.
  induction a as [|x a IH]; [done |]. by rewrite !app_cons, IH.
Qed.

Lemma app_empty_r (a : string) : a +:+ "" = a.
Proof. induction a as [|x a IH]; [done |]. by rewrite app_cons, IH. Qed.

Lemma HasPrefix_spec (s prefix : string) :
  HasPrefix s prefix = true ↔ ∃ post, s = prefix +:+ post.
Proof.
  revert s. induction prefix as [|a prefix IH]; intros s; simpl.
  - split; [intros _; by exists s | done].
  - destruct s as [|b s].
    + split; [done | intros [post Hpost]; discriminate].
    + case_decide as Hab.
      * subst b. rewrite IH. split; intros [post Hpost]; exists post.
        -- by rewrite app_cons, Hpost.
        -- rewrite app_cons in Hpost. by injection Hpost.
      * split; [done |].
        intros [post Hpost]. rewrite app_cons in Hpost.
        injection Hpost; congruence.
Qed.

(** [Contains] is the substring relation. *)
Lemma Contains_spec (s substr : string) :
  Contains s substr = true ↔ ∃ pre post, s = pre +:+ substr +:+ post.
Proof.
  induction s as [|c s IH]; simpl; rewrite orb_true_iff, HasPrefix_spec.
  - split.
    + intros [[post Hpost] | ?]; [by exists "", post | done].
    + intros (pre & post & Hs). left.
      destruct pre; [by exists post | discriminate].
  - rewrite IH. split.
    + intros [[post Hpost] | (pre & post & Hs)].
      * by exists "", post.
      * exists (String c pre), post. by rewrite app_cons, Hs.
    + intros (pre & post & Hs). destruct pre as [|x pre].
      * left. by exists post.
      * right. exists pre, post. rewrite app_cons in Hs. by injection Hs.
Qed.

(** A byte occurs in a string. *)
Lemma Contains_byte_cons (b c : ascii) (s : string) :
  Contains (String b s) (String c "") =
  bool_decide (c = b) || Contains s (String c "").
Proof. simpl. by repeat case_decide. Qed.

Lemma Contains_byte_app (c : ascii) (a b : string) :
  Contains (a +:+ b) (String c "") =
  Contains a (String c "") || Contains b (String c "").
Proof.
  induction a as [|x a IH].
  - by rewrite app_nil_l.
  - rewrite app_cons, !Contains_byte_cons, IH. by rewrite orb_assoc.
Qed.

Lemma HasPrefix_byte (b c : ascii) (s : string) :
  HasPrefix (String b s) (String c "") = bool_decide (c = b).
Proof.
  simpl. destruct (decide (c = b)) as [Hcb | Hcb].
  - by rewrite bool_decide_eq_true_2.
  - by rewrite bool_decide_eq_false_2.
Qed.

(** Splitting on a byte that does not occur gives the string itself. *)
Lemma Split_absent (c : ascii) (s : string) :
  Contains s (String c "") = false → Split s (String c "") = [s].
Proof.
  unfold Split. induction s as [|b s IH]; [done |].
  rewrite Contains_byte_cons, orb_false_iff. intros [Hb Hs].
  cbn [split_from]. rewrite HasPrefix_byte, Hb, (IH Hs). done.
Qed.

(** Splitting on a byte cuts at its first occurrence. *)
Lemma Split_first (c : ascii) (a b : string) :
  Contains a (String c "") = false →
  Split (a +:+ String c b) (String c "") = a :: Split b (String c "").
Proof.
  unfold Split. induction a as [|x a IH].
  - intros _. rewrite app_nil_l. cbn [split_from].
    rewrite HasPrefix_byte, bool_decide_eq_true_2 by done. done.
  - rewrite Contains_byte_cons, orb_false_iff. intros [Hx Ha].
    rewrite app_cons. cbn [split_from].
    rewrite HasPrefix_byte, Hx, (IH Ha). done.
Qed.

End strings_facts.

Module split_facts.
Import strings strings_facts.

Lemma split_from_nonempty (sep : string) (skip : nat) (s : string) :
  split_from sep skip s ≠ [].
Proof.
  revert skip. induction s as [|b s IH]; intros skip; [done |].
  cbn [split_from]. destruct skip as [|k]; [| apply IH].
  destruct (HasPrefix (String b s) sep); [done |].
  by destruct (split_from sep 0 s).
Qed.

Lemma Join_cons (a b : string) (l : list string) (sep : string) :
  Join (a :: b :: l) sep = a +:+ sep +:+ Join (b :: l) sep.
Proof. reflexivity. Qed.

Lemma Join_cons_byte (x : ascii) (a : string) (l : list string) (sep : string) :
  Join (String x a :: l) sep = String x (Join (a :: l) sep).
Proof. destruct l as [|b l]; [done |]. by rewrite !Join_cons, app_cons. Qed.

(** The pieces of a split on a byte, joined by that byte, give the string
    back, and the byte occurs in none of them. *)
Lemma Split_Join (c : ascii) (s : string) :
  Join (Split s (String c "")) (String c "") = s
  ∧ Forall (no_byte c) (Split s (String c "")).
Proof.
  unfold Split. induction s as [|b s [IHj IHf]].
  - split; [done |]. by apply Forall_singleton.
  - cbn [split_from]. rewrite HasPrefix_byte.
    destruct (bool_decide (c = b)) eqn:Hcb.
    + apply bool_decide_eq_true in Hcb as <-.
      change (String.length (String c "") - 1)%nat with O.
      destruct (split_from (String c "") 0 s) as [|p ps] eqn:Hs.
      { by apply split_from_nonempty in Hs. }
      split.
      * by rewrite Join_cons, IHj.
      * by apply Forall_cons.
    + destruct (split_from (String c "") 0 s) as [|p ps] eqn:Hs.
      { by apply split_from_nonempty in Hs. }
      split.
      * by rewrite Join_cons_byte, IHj.
      * apply Forall_cons in IHf as [Hp Hps]. apply Forall_cons.
        split; [| done]. unfold no_byte in *.
        by rewrite Contains_byte_cons, Hcb, Hp.
Qed.

(** A non-empty list of pieces free of a byte is the split of its join. *)
Lemma Split_unique (c : ascii) (l : list string) :
  l ≠ [] → Forall (no_byte c) l →
  Split (Join l (String c "")) (String c "") = l.
Proof.
  induction l as [|a l IH]; [done |]. intros _ Hl.
  apply Forall_cons in Hl as [Ha Hl]. destruct l as [|b l].
  - by apply Split_absent.
  - rewrite Join_cons. change (String c "" +:+ ?x) with (String c x).
    rewrite Split_first by done. by rewrite IH.
Qed.

Lemma Split_spec (c : ascii) (s : string) (l : list string) :
  Split s (String c "") = l ↔
  l ≠ [] ∧ Join l (String c "") = s ∧ Forall (no_byte c) l.
Proof.
  split.
  - intros <-. split; [apply split_from_nonempty | apply Split_Join].
  - intros (Hne & <- & Hl). by apply Split_unique.
Qed.

Lemma after_last_absent (c : ascii) (s : string) :
  no_byte c s → after_last c s = None.
Proof.
  unfold no_byte. induction s as [|b s IH]; [done |].
  rewrite Contains_byte_cons, orb_false_iff. intros [Hb Hs].
  simpl. rewrite (IH Hs). apply bool_decide_eq_false in Hb.
  case_decide; congruence.
Qed.

Lemma after_last_app (c : ascii) (a b : string) :
  no_byte c b → after_last c (a +:+ String c b) = Some b.
Proof.
  intros Hb. induction a as [|x a IH].
  - rewrite app_nil_l. simpl. rewrite (after_last_absent _ _ Hb).
    by case_decide.
  - rewrite app_cons. simpl. by rewrite IH.
Qed.

Lemma no_byte_app (c : ascii) (a b : string) :
  no_byte c a → no_byte c b → no_byte c (a +:+ b).
Proof.
  unfold no_byte. intros Ha Hb. by rewrite Contains_byte_app, Ha, Hb.
Qed.

Lemma no_byte_cons (c x : ascii) (a : string) :
  c ≠ x → no_byte c a → no_byte c (String x a).
Proof.
  unfold no_byte. intros Hx Ha.
  by rewrite Contains_byte_cons, Ha, bool_decide_eq_false_2.
Qed.

End split_facts.

(** ** The revision of a task definition *)

Section revision.
Import strings strings_facts split_facts.

Lemma index_Returned {A : Type} (l : list A) (i : nat) (x : A) :
  index l i = Returned x ↔ l !! i = Some x.
Proof.
  unfold index. destruct (l !! i); split; intros H; by simplify_eq.
Qed.

Lemma parseRevision_shape (arn pre family revision : string) :
  task_def_arn arn pre family revision →
  parseRevisionFromTaskDefARN arn = Returned revision.
Proof.
  intros [-> Hpre Hfs Hfc Hrs Hrc]. unfold parseRevisionFromTaskDefARN.
  change ("/" +:+ ?x) with (String "/" x).
  change (":" +:+ ?x) with (String ":" x).
  rewrite Split_first by done.
  rewrite Split_absent
    by (apply no_byte_app; [done | by apply no_byte_cons]).
  simpl. rewrite Split_first by done. by rewrite Split_absent.
Qed.

Lemma spec_revision_shape (arn pre family revision : string) :
  task_def_arn arn pre family revision →
  spec_revision arn = Some revision.
Proof.
  intros [-> Hpre Hfs Hfc Hrs Hrc]. unfold spec_revision.
  change ("/" +:+ ?x) with (String "/" x).
  change (":" +:+ ?x) with (String ":" x).
  rewrite after_last_app
    by (apply no_byte_app; [done | by apply no_byte_cons]).
  simpl. by apply after_last_app.
Qed.

End revision.

(** C6, as amended: for every identifier of the shape
    [arn:...:task-definition/<family>:<revision>], with a single [/] and a
    single [:] after it, the parser returns the revision, and the revision
    is the substring after the last [:] that follows the last [/]. *)
Theorem C6_revision_of_task_def_arn (arn pre family revision : string) :
  task_def_arn arn pre family revision →
  parseRevisionFromTaskDefARN arn = Returned revision
  ∧ spec_revision arn = Some revision.
Proof.
  intros Harn. split.
  - by eapply parseRevision_shape.
  - by eapply spec_revision_shape.
Qed.

Lemma C6_revision_of_task_def_arn_witness :
  task_def_arn
    "arn:aws:ecs:us-west-2:1111:task-definition/webapp-test-frontend:3"
    "arn:aws:ecs:us-west-2:1111:task-definition" "webapp-test-frontend" "3"
  ∧ parseRevisionFromTaskDefARN
      "arn:aws:ecs:us-west-2:1111:task-definition/webapp-test-frontend:3"
    = Returned "3"
  ∧ spec_revision
      "arn:aws:ecs:us-west-2:1111:task-definition/webapp-test-frontend:3"
    = Some "3".
Proof.
  assert (H : task_def_arn
    "arn:aws:ecs:us-west-2:1111:task-definition/webapp-test-frontend:3"
    "arn:aws:ecs:us-west-2:1111:task-definition" "webapp-test-frontend" "3")
    by (split; reflexivity).
  split; [exact H |].
  exact (C6_revision_of_task_def_arn _ _ _ _ H).
Defined.

(** C6 as stated fails where a second [:] follows the [/]: the parser
    returns what stands between the first two [:] of the segment, not what
    follows the last one; and with a second [/] it reads the wrong segment
    and panics. *)
Lemma C6_second_colon_counterexample :
  parseRevisionFromTaskDefARN
    "arn:aws:ecs:us-west-2:1111:task-definition/webapp:3:4" = Returned "3"
  ∧ spec_revision
      "arn:aws:ecs:us-west-2:1111:task-definition/webapp:3:4" = Some "4"
  ∧ parseRevisionFromTaskDefARN
      "arn:aws:ecs:us-west-2:1111:task-definition/team/webapp:3"
    = Panicked (IndexOutOfRange 1 1)
  ∧ spec_revision
      "arn:aws:ecs:us-west-2:1111:task-definition/team/webapp:3" = Some "3".
Proof. repeat split; reflexivity. Qed.

(** C7: the parser returns a revision exactly when the identifier, cut at
    every [/], has a second segment (the family segment) which, cut at every
    [:], has a second component, and that component is the revision; the
    identifier of the example parses to ["3"]. *)
Theorem C7_parseRevision_second_components (arn revision : string) :
  (parseRevisionFromTaskDefARN arn = Returned revision ↔
   ∃ (segments : list string) (familyName : string) (components : list string),
     segments ≠ [] ∧ strings.Join segments "/" = arn
     ∧ Forall (no_byte "/") segments
     ∧ segments !! 1%nat = Some familyName
     ∧ components ≠ [] ∧ strings.Join components ":" = familyName
     ∧ Forall (no_byte ":") components
     ∧ components !! 1%nat = Some revision)
  ∧ parseRevisionFromTaskDefARN
      "arn:aws:ecs:us-west-2:1111:task-definition/webapp-test-frontend:3"
    = Returned "3".
Proof.
  split; [| reflexivity]. unfold parseRevisionFromTaskDefARN. split.
  - destruct (index (strings.Split arn "/") 1) as [familyName | p] eqn:Hfam;
      [| done].
    simpl. intros Hrev.
    apply index_Returned in Hfam. apply index_Returned in Hrev.
    exists (strings.Split arn "/"), familyName, (strings.Split familyName ":").
    pose proof (split_facts.Split_Join "/" arn) as [? ?].
    pose proof (split_facts.Split_Join ":" familyName) as [? ?].
    repeat split; try done; apply split_facts.split_from_nonempty.
  - intros (segments & familyName & components & Hs & <- & Hfs & Hfam
              & Hc & <- & Hfc & Hrev).
    rewrite split_facts.Split_unique by done.
    apply index_Returned in Hfam. rewrite Hfam. simpl.
    rewrite split_facts.Split_unique by done.
    by apply index_Returned.
Qed.

(** ** The events of a description *)

Section events.

Lemma record_ids_cons (ledger : gmap string bool) (event : ecs.ServiceEvent)
    (events : list ecs.ServiceEvent) :
  record_ids ledger (event :: events)
  = record_ids (<[event_id event := true]> ledger) events.
Proof. reflexivity. Qed.

Lemma record_ids_lookup (ledger : gmap string bool)
    (events : list ecs.ServiceEvent) (id : string) :
  is_Some (record_ids ledger events !! id) ↔
  is_Some (ledger !! id) ∨ id ∈ event_id <$> events.
Proof.
  revert ledger. induction events as [|event events IH]; intros ledger.
  - simpl. split; [by left | intros [? | Hin]; [done |]].
    by apply elem_of_nil in Hin.
  - rewrite record_ids_cons, IH, fmap_cons, elem_of_cons.
    destruct (decide (event_id event = id)) as [<- | Hne].
    + rewrite lookup_insert_eq. split; [intros _; right; by left |].
      intros _. left. by exists true.
    + rewrite lookup_insert_ne by done.
      assert (id ≠ event_id event) by congruence. tauto.
Qed.

(** The loop over the events processes the events before the stop point,
    and only them. *)
Lemma fetch_events_stop_point (creation : time_Time)
    (events : list ecs.ServiceEvent) (ledger : gmap string bool)
    (failureMsgs : list string) :
  ∃ processed rest,
    stop_point creation ledger events processed rest
    ∧ fetch_events creation events ledger failureMsgs
      = (record_ids ledger processed,
         failureMsgs
         ++ List.filter isFailureServiceEvent (event_message <$> processed)).
Proof.
  revert ledger failureMsgs.
  induction events as [|event events IH]; intros ledger failureMsgs.
  { exists [], []. repeat split; [| by left | by rewrite app_nil_r].
    intros before e after H. by destruct before. }
  cbn [fetch_events]. unfold Before.
  destruct (Z.ltb_spec (aws.TimeValue (ecs.CreatedAt event)) creation)
    as [Hlt | Hge].
  { exists [], (event :: events).
    repeat split; [| | by rewrite app_nil_r].
    - intros before e after H. by destruct before.
    - right. exists event, events. split; [done | by left]. }
  fold (event_id event). fold (event_message event).
  destruct (ledger !! event_id event) as [v |] eqn:Hid.
  { exists [], (event :: events).
    repeat split; [| | by rewrite app_nil_r].
    - intros before e after H. by destruct before.
    - right. exists event, events. split; [done | right]. by exists v. }
  destruct (IH (<[event_id event := true]> ledger)
              (if isFailureServiceEvent (event_message event)
               then failureMsgs ++ [event_message event]
               else failureMsgs))
    as (processed & rest & (-> & Hproc & Hrest) & ->).
  exists (event :: processed), rest. repeat split.
  - intros before e after H. destruct before as [|e0 before].
    + injection H as <- _. simpl. intros [? | Hsome]; [lia |].
      rewrite Hid in Hsome. by destruct Hsome.
    + injection H as <- ->. rewrite record_ids_cons. by eapply Hproc.
  - by rewrite record_ids_cons.
  - rewrite record_ids_cons. f_equal. rewrite fmap_cons. simpl.
    destruct (isFailureServiceEvent (event_message event)); [| done].
    by rewrite <- app_assoc.
Qed.

Lemma fetch_events_subseteq (creation : time_Time)
    (events : list ecs.ServiceEvent) (ledger : gmap string bool)
    (failureMsgs : list string) :
  ledger ⊆ (fetch_events creation events ledger failureMsgs).1.
Proof.
  revert ledger failureMsgs.
  induction events as [|event events IH]; intros ledger failureMsgs;
    [done |].
  cbn [fetch_events].
  destruct (Before _ _); [done |].
  destruct (ledger !! aws.StringValue (ecs.Id event)) eqn:Hid; [done |].
  etrans; [| apply IH]. by apply insert_subseteq.
Qed.

Lemma fetch_events_all_true (creation : time_Time)
    (events : list ecs.ServiceEvent) (ledger : gmap string bool)
    (failureMsgs : list string) :
  all_true ledger →
  all_true (fetch_events creation events ledger failureMsgs).1.
Proof.
  revert ledger failureMsgs.
  induction events as [|event events IH]; intros ledger failureMsgs Hall;
    [done |].
  cbn [fetch_events].
  destruct (Before _ _); [done |].
  destruct (ledger !! aws.StringValue (ecs.Id event)) eqn:Hid; [done |].
  apply IH. intros id v. rewrite lookup_insert.
  case_decide; [congruence | apply Hall].
Qed.

End events.

(** ** The deployments of a description and the Completion Signal *)

Section deployments.

Lemma fetch_deployment_unfold (acc : list ECSDeployment * chan unit)
    (deployment : ecs.Deployment) :
  fetch_deployment acc deployment
  = (revision ← parseRevisionFromTaskDefARN
                  (aws.StringValue (ecs.TaskDefinition deployment));
     if completed_primary deployment
     then done' ← close acc.2;
          mret (acc.1 ++ [normalized deployment revision], done')
     else mret (acc.1 ++ [normalized deployment revision], acc.2)).
Proof. reflexivity. Qed.

(** Once [done] is closed, a loop that returns has left it as it was. *)
Lemma fetch_deployments_closed (deployments : list ecs.Deployment)
    (acc acc' : list ECSDeployment * chan unit) :
  chan_closed acc.2 = true →
  fetch_deployments deployments acc = Returned acc' →
  acc'.2 = acc.2.
Proof.
  revert acc. induction deployments as [|d ds IH]; intros acc Hclosed.
  { by returned. }
  cbn [fetch_deployments]. rewrite fetch_deployment_unfold.
  destruct (parseRevisionFromTaskDefARN _) as [revision | p]; [| done].
  simpl. destruct (completed_primary d).
  - unfold close. by rewrite Hclosed.
  - simpl. intros Hret. by apply IH in Hret.
Qed.

(** With [done] closed, a completed primary deployment makes the loop
    panic. *)
Lemma fetch_deployments_closed_panics (deployments : list ecs.Deployment)
    (acc : list ECSDeployment * chan unit) :
  chan_closed acc.2 = true →
  Exists (fun d => completed_primary d = true) deployments →
  returns (fetch_deployments deployments acc) = false.
Proof.
  revert acc. induction deployments as [|d ds IH]; intros acc Hclosed Hex.
  { by apply Exists_nil in Hex. }
  cbn [fetch_deployments]. rewrite fetch_deployment_unfold.
  destruct (parseRevisionFromTaskDefARN _) as [revision | p]; [| done].
  simpl. destruct (completed_primary d) eqn:Hd.
  - unfold close. by rewrite Hclosed.
  - simpl. apply IH; [done |].
    apply Exists_cons in Hex as [Hex | Hex]; [congruence | done].
Qed.

Lemma fetch_deployments_closed_panic (deployments : list ecs.Deployment)
    (acc : list ECSDeployment * chan unit) :
  chan_closed acc.2 = true →
  Forall well_formed deployments →
  Exists (fun d => completed_primary d = true) deployments →
  fetch_deployments deployments acc = Panicked CloseOfClosedChannel.
Proof.
  revert acc.
  induction deployments as [|d ds IH]; intros acc Hclosed Hwf Hex.
  { by apply Exists_nil in Hex. }
  apply Forall_cons in Hwf as [(pre & family & revision & Hd) Hwf].
  cbn [fetch_deployments]. rewrite fetch_deployment_unfold.
  rewrite (parseRevision_shape _ _ _ _ Hd).
  simpl. destruct (completed_primary d) eqn:Hc.
  - unfold close. by rewrite Hclosed.
  - simpl. apply IH; [done | done |].
    apply Exists_cons in Hex as [Hex | Hex]; [congruence | done].
Qed.

(** The loop returns on well-formed deployments of which none completes
    the rollout, or one does while [done] is open; [done] is then closed
    exactly when it was closed or a deployment completes the rollout. *)
Lemma fetch_deployments_returns (deployments : list ecs.Deployment)
    (acc : list ECSDeployment * chan unit) :
  Forall well_formed deployments →
  length (List.filter completed_primary deployments) = 0%nat
  ∨ (length (List.filter completed_primary deployments) = 1%nat
     ∧ chan_closed acc.2 = false) →
  ∃ acc',
    fetch_deployments deployments acc = Returned acc'
    ∧ length acc'.1 = (length acc.1 + length deployments)%nat
    ∧ chan_closed acc'.2
      = chan_closed acc.2 || existsb completed_primary deployments.
Proof.
  revert acc. induction deployments as [|d ds IH]; intros acc Hwf Hcount.
  { exists acc. repeat split; [simpl; lia | by rewrite orb_false_r]. }
  apply Forall_cons in Hwf as [(pre & family & revision & Hd) Hwf].
  cbn [fetch_deployments]. rewrite fetch_deployment_unfold.
  rewrite (parseRevision_shape _ _ _ _ Hd).
  simpl in *. destruct (completed_primary d) eqn:Hc; simpl in *.
  - destruct Hcount as [? | [Hcount Hopen]]; [lia |].
    unfold close. rewrite Hopen. simpl.
    destruct (IH (acc.1 ++ [normalized d revision],
                  mkChan true (chan_sent acc.2)) Hwf)
      as (acc' & Hret & Hlen & Hdone); [left; lia |].
    exists acc'. split; [done |]. simpl in *. split.
    + rewrite Hlen, length_app. simpl. lia.
    + done.
  - destruct (IH (acc.1 ++ [normalized d revision], acc.2) Hwf Hcount)
      as (acc' & Hret & Hlen & Hdone).
    exists acc'. split; [done |]. simpl in *. split.
    + rewrite Hlen, length_app. simpl. lia.
    + done.
Qed.

End deployments.

(** ** [Fetch] *)

Section fetch_facts.

Variable interval : Z.

(** A call of [Fetch] whose describe call succeeds and which returns. *)
Lemma Fetch_Returned_inv (client : ECSServiceDescriber) (now : time_Time)
    (s s' : ECSDeploymentStreamer) (out : ecs.Service)
    (r : time_Time * option error) :
  client (cluster s) (service s) = inl out →
  Fetch interval client now s = Returned (s', r) →
  ∃ acc,
    fetch_deployments (ecs.Deployments out) ([], done s) = Returned acc
    ∧ cluster s' = cluster s ∧ service s' = service s
    ∧ deploymentCreationTime s' = deploymentCreationTime s
    ∧ subscribers s' = subscribers s
    ∧ done s' = acc.2
    ∧ pastEventIDs s'
      = (fetch_events (deploymentCreationTime s) (ecs.Events out)
           (pastEventIDs s) []).1
    ∧ eventsToFlush s'
      = eventsToFlush s ++
        [{| Deployments := acc.1;
            LatestFailureEvents :=
              (fetch_events (deploymentCreationTime s) (ecs.Events out)
                 (pastEventIDs s) []).2 |}]
    ∧ r = (time_Add now interval, None).
Proof.
  intros Hout. unfold Fetch. rewrite Hout.
  destruct (fetch_deployments _ _) as [acc | p]; [| done].
  returned. by exists acc.
Qed.

Lemma Fetch_error (client : ECSServiceDescriber) (now : time_Time)
    (s : ECSDeploymentStreamer) (err : error) :
  client (cluster s) (service s) = inr err →
  Fetch interval client now s
  = Returned (s, (time_zero, Some (Errorf_w "fetch service description" err))).
Proof. intros Herr. unfold Fetch. by rewrite Herr. Qed.

(** What a call that returns does to the ledger and to [done]. *)
Lemma step_ledger (s s' : ECSDeploymentStreamer) (c : call) :
  step interval s c = Returned s' →
  pastEventIDs s ⊆ pastEventIDs s'
  ∧ (all_true (pastEventIDs s) → all_true (pastEventIDs s')).
Proof.
  destruct c as [| client now | |]; simpl.
  - by returned.
  - destruct (Fetch interval client now s) as [[s1 r] |] eqn:HF; [| done].
    returned.
    destruct (client (cluster s) (service s)) as [out | err] eqn:Hc.
    + destruct (Fetch_Returned_inv _ _ _ _ _ _ Hc HF)
        as (acc & _ & _ & _ & _ & _ & _ & -> & _). split.
      * apply fetch_events_subseteq.
      * apply fetch_events_all_true.
    + rewrite (Fetch_error _ _ _ _ Hc) in HF. by injection HF as <- _.
  - unfold Notify. destruct (notify_events _ _); [| done].
    by returned.
  - unfold Close. destruct (close_all _); [| done].
    by returned.
Qed.

Lemma step_signaled (s s' : ECSDeploymentStreamer) (c : call) :
  step interval s c = Returned s' →
  signaled s = true → signaled s' = true.
Proof.
  unfold signaled, Done. destruct c as [| client now | |]; simpl.
  - by returned.
  - destruct (Fetch interval client now s) as [[s1 r] |] eqn:HF; [| done].
    returned. intros Hs.
    destruct (client (cluster s) (service s)) as [out | err] eqn:Hc.
    + destruct (Fetch_Returned_inv _ _ _ _ _ _ Hc HF)
        as (acc & Hacc & _ & _ & _ & _ & -> & _).
      by rewrite (fetch_deployments_closed _ ([], done s) _ Hs Hacc).
    + rewrite (Fetch_error _ _ _ _ Hc) in HF. by injection HF as <- _.
  - unfold Notify. destruct (notify_events _ _); [| done].
    by returned.
  - unfold Close. destruct (close_all _); [| done].
    by returned.
Qed.

Lemma run_ledger (s s' : ECSDeploymentStreamer) (cs : list call) :
  run interval s cs = Returned s' →
  pastEventIDs s ⊆ pastEventIDs s'
  ∧ (all_true (pastEventIDs s) → all_true (pastEventIDs s')).
Proof.
  revert s. induction cs as [|c cs IH]; intros s; simpl.
  - by returned.
  - destruct (step interval s c) as [s1 |] eqn:Hstep; [| done].
    simpl. intros Hrun.
    destruct (step_ledger _ _ _ Hstep) as [Hsub Hall].
    destruct (IH _ Hrun) as [Hsub' Hall'].
    split; [by etrans | auto].
Qed.

Lemma signal_transitions_cons (a b : bool) (l : list bool) :
  signal_transitions (a :: b :: l)
  = ((if negb a && b then 1 else 0) + signal_transitions (b :: l))%nat.
Proof. reflexivity. Qed.

(** Once the signal is given, no later state shows a transition. *)
Lemma signal_transitions_signaled (s : ECSDeploymentStreamer)
    (cs : list call) :
  signaled s = true →
  signal_transitions (signaled s :: (signaled <$> states interval s cs))
  = 0%nat.
Proof.
  revert s. induction cs as [|c cs IH]; intros s Hs; [done |].
  cbn [states]. destruct (step interval s c) as [s1 |] eqn:Hstep; [| done].
  rewrite fmap_cons, signal_transitions_cons.
  rewrite (IH s1) by by eapply step_signaled.
  by rewrite Hs.
Qed.

Lemma signal_transitions_le_1 (s : ECSDeploymentStreamer) (cs : list call) :
  (signal_transitions (signaled s :: (signaled <$> states interval s cs))
   ≤ 1)%nat.
Proof.
  revert s. induction cs as [|c cs IH]; intros s; [simpl; lia |].
  cbn [states]. destruct (step interval s c) as [s1 |] eqn:Hstep;
    [| simpl; lia].
  rewrite fmap_cons, signal_transitions_cons.
  destruct (signaled s1) eqn:Hs1.
  - rewrite <- Hs1 at 2. rewrite signal_transitions_signaled by done.
    destruct (negb (signaled s) && true); lia.
  - rewrite andb_false_r. rewrite <- Hs1. apply IH.
Qed.

End fetch_facts.

(** ** The claims on [Fetch] *)

(** C5: when the describe call fails, [Fetch] returns the zero time and an
    error that wraps the error of the call, and the streamer it leaves is
    the streamer it found: ledger, buffer, Completion Signal and subscribers
    are unchanged. *)
Theorem C5_Fetch_error_is_atomic (interval : Z) (client : ECSServiceDescriber)
    (now : time_Time) (s : ECSDeploymentStreamer) (err : error) :
  client (cluster s) (service s) = inr err →
  ∃ s' next e,
    Fetch interval client now s = Returned (s', (next, Some e))
    ∧ Unwrap e = Some err
    ∧ Error e = "fetch service description: " +:+ Error err
    ∧ s' = s
    ∧ pastEventIDs s' = pastEventIDs s
    ∧ eventsToFlush s' = eventsToFlush s
    ∧ done s' = done s
    ∧ subscribers s' = subscribers s.
Proof.
  intros Herr. eexists s, _, _. rewrite (Fetch_error _ _ _ _ _ Herr).
  repeat split; reflexivity.
Qed.

Lemma C5_Fetch_error_is_atomic_witness :
  fails_with (errorString "throttled") (cluster sample_streamer)
    (service sample_streamer) = inr (errorString "throttled")
  ∧ ∃ s' next e,
      Fetch 3000000000 (fails_with (errorString "throttled")) 100
        sample_streamer = Returned (s', (next, Some e))
      ∧ Unwrap e = Some (errorString "throttled")
      ∧ Error e = "fetch service description: throttled"
      ∧ s' = sample_streamer
      ∧ pastEventIDs s' = pastEventIDs sample_streamer
      ∧ eventsToFlush s' = eventsToFlush sample_streamer
      ∧ done s' = done sample_streamer
      ∧ subscribers s' = subscribers sample_streamer.
Proof.
  split; [reflexivity |].
  exact (C5_Fetch_error_is_atomic 3000000000
           (fails_with (errorString "throttled")) 100 sample_streamer
           (errorString "throttled") eq_refl).
Defined.

(** C2: a [Fetch] that returns has processed the events of the description
    in their order up to the stop point: the first event created strictly
    before the deployment or whose identifier the ledger holds when the
    event is reached. The identifiers of the processed events are recorded,
    the ledger gains no other identifier, and the failure messages of the
    buffered snapshot come from the processed events only. *)
Theorem C2_events_processed_up_to_stop_point (interval : Z)
    (client : ECSServiceDescriber) (now : time_Time)
    (s s' : ECSDeploymentStreamer) (out : ecs.Service)
    (r : time_Time * option error) :
  client (cluster s) (service s) = inl out →
  Fetch interval client now s = Returned (s', r) →
  ∃ processed rest snapshot,
    stop_point (deploymentCreationTime s) (pastEventIDs s) (ecs.Events out)
      processed rest
    ∧ pastEventIDs s' = record_ids (pastEventIDs s) processed
    ∧ (∀ id, is_Some (pastEventIDs s' !! id) ↔
             is_Some (pastEventIDs s !! id) ∨ id ∈ event_id <$> processed)
    ∧ eventsToFlush s' = eventsToFlush s ++ [snapshot]
    ∧ LatestFailureEvents snapshot
      = List.filter isFailureServiceEvent (event_message <$> processed).
Proof.
  intros Hout HF.
  destruct (Fetch_Returned_inv _ _ _ _ _ _ _ Hout HF)
    as (acc & _ & _ & _ & _ & _ & _ & Hpast & Hflush & _).
  destruct (fetch_events_stop_point (deploymentCreationTime s)
              (ecs.Events out) (pastEventIDs s) [])
    as (processed & rest & Hstop & Hev).
  rewrite Hev in Hpast, Hflush. simpl in Hpast, Hflush.
  eexists processed, rest, _. split; [done |]. split; [done |]. split.
  { intros id. rewrite Hpast. apply record_ids_lookup. }
  split; [exact Hflush | done].
Qed.

Lemma C2_events_processed_up_to_stop_point_witness :
  ∃ s' r,
    describes rolling_service (cluster sample_streamer)
      (service sample_streamer) = inl rolling_service
    ∧ Fetch 3000000000 (describes rolling_service) 100 sample_streamer
      = Returned (s', r)
    ∧ ∃ processed rest snapshot,
        stop_point (deploymentCreationTime sample_streamer)
          (pastEventIDs sample_streamer) (ecs.Events rolling_service)
          processed rest
        ∧ pastEventIDs s' = record_ids (pastEventIDs sample_streamer) processed
        ∧ (∀ id, is_Some (pastEventIDs s' !! id) ↔
                 is_Some (pastEventIDs sample_streamer !! id)
                 ∨ id ∈ event_id <$> processed)
        ∧ eventsToFlush s' = eventsToFlush sample_streamer ++ [snapshot]
        ∧ LatestFailureEvents snapshot
          = List.filter isFailureServiceEvent (event_message <$> processed).
Proof.
  eexists _, _. split; [reflexivity |]. split; [reflexivity |].
  exact (C2_events_processed_up_to_stop_point 3000000000
           (describes rolling_service) 100 sample_streamer _ rolling_service
           _ eq_refl eq_refl).
Defined.

(** C8: a message is a failure exactly when one of the six keywords occurs
    in it as a substring, in the keyword's own case and whether or not the
    occurrence is a whole word; the failure messages of the snapshot that a
    [Fetch] buffers are the messages of the processed events so classified,
    in the order of processing. *)
Theorem C8_failure_keywords :
  (∀ msg,
     isFailureServiceEvent msg = true ↔
     ∃ kw pre post,
       kw ∈ ["fail"; "unhealthy"; "error"; "throttle"; "unable"; "missing"]
       ∧ msg = pre +:+ kw +:+ post)
  ∧ isFailureServiceEvent "task failed to start" = true
  ∧ isFailureServiceEvent "task FAILED to start" = false
  ∧ (∀ interval client now s s' out r,
       client (cluster s) (service s) = inl out →
       Fetch interval client now s = Returned (s', r) →
       ∃ processed rest snapshot,
         stop_point (deploymentCreationTime s) (pastEventIDs s)
           (ecs.Events out) processed rest
         ∧ eventsToFlush s' = eventsToFlush s ++ [snapshot]
         ∧ LatestFailureEvents snapshot
           = List.filter isFailureServiceEvent (event_message <$> processed)
         ∧ ∀ msg, msg ∈ LatestFailureEvents snapshot ↔
                  isFailureServiceEvent msg = true
                  ∧ msg ∈ event_message <$> processed).
Proof.
  split; [| split; [reflexivity | split; [reflexivity |]]].
  - intros msg. unfold isFailureServiceEvent. rewrite existsb_exists. split.
    + intros (kw & Hin & Hkw).
      apply strings_facts.Contains_spec in Hkw as (pre & post & ->).
      exists kw, pre, post. split; [| done]. by apply list_elem_of_In.
    + intros (kw & pre & post & Hin & ->). exists kw. split.
      * by apply list_elem_of_In.
      * apply strings_facts.Contains_spec. by exists pre, post.
  - intros interval client now s s' out r Hout HF.
    destruct (Fetch_Returned_inv _ _ _ _ _ _ _ Hout HF)
      as (acc & _ & _ & _ & _ & _ & _ & _ & Hflush & _).
    destruct (fetch_events_stop_point (deploymentCreationTime s)
                (ecs.Events out) (pastEventIDs s) [])
      as (processed & rest & Hstop & Hev).
    rewrite Hev in Hflush. simpl in Hflush.
    eexists processed, rest, _.
    split; [done |]. split; [exact Hflush |]. split; [done |].
    intros msg. simpl. rewrite !list_elem_of_In, filter_In. tauto.
Qed.

Lemma C8_failure_keywords_witness :
  ∃ s' r,
    Fetch 3000000000 (describes rolling_service) 100 sample_streamer
    = Returned (s', r)
    ∧ ∃ processed rest snapshot,
        stop_point (deploymentCreationTime sample_streamer)
          (pastEventIDs sample_streamer) (ecs.Events rolling_service)
          processed rest
        ∧ eventsToFlush s' = eventsToFlush sample_streamer ++ [snapshot]
        ∧ LatestFailureEvents snapshot
          = List.filter isFailureServiceEvent (event_message <$> processed)
        ∧ ∀ msg, msg ∈ LatestFailureEvents snapshot ↔
                 isFailureServiceEvent msg = true
                 ∧ msg ∈ event_message <$> processed.
Proof.
  eexists _, _. split; [reflexivity |].
  exact (proj2 (proj2 (proj2 C8_failure_keywords)) 3000000000
           (describes rolling_service) 100 sample_streamer _ rolling_service
           _ eq_refl eq_refl).
Defined.

(** C3: along every sequence of calls the ledger only grows: what it holds
    before, it holds after, so its size never decreases; and in the ledger
    of a streamer made by [NewECSDeploymentStreamer], inserting an
    identifier that is present changes nothing. *)
Theorem C3_ledger_only_grows :
  (∀ interval s cs s',
     run interval s cs = Returned s' →
     pastEventIDs s ⊆ pastEventIDs s'
     ∧ (∀ id, is_Some (pastEventIDs s !! id) → is_Some (pastEventIDs s' !! id))
     ∧ (size (pastEventIDs s) ≤ size (pastEventIDs s'))%nat)
  ∧ (∀ interval cluster service creation cs s' id,
       run interval (NewECSDeploymentStreamer cluster service creation) cs
       = Returned s' →
       is_Some (pastEventIDs s' !! id) →
       <[id := true]> (pastEventIDs s') = pastEventIDs s').
Proof.
  split.
  - intros interval s cs s' Hrun.
    destruct (run_ledger _ _ _ _ Hrun) as [Hsub _].
    split; [done |]. split; [| by apply map_subseteq_size].
    intros id [v Hv]. exists v. by eapply lookup_weaken.
  - intros interval cluster service creation cs s' id Hrun [v Hv].
    destruct (run_ledger _ _ _ _ Hrun) as [_ Hall].
    apply insert_id. rewrite Hv. f_equal. apply (Hall ltac:(done) id v Hv).
Qed.

Lemma C3_ledger_only_grows_witness :
  ∃ s',
    run 3000000000 sample_streamer
      [CallFetch (describes rolling_service) 100; CallNotify;
       CallFetch (describes rolling_service) 200] = Returned s'
    ∧ is_Some (pastEventIDs s' !! "e3")
    ∧ pastEventIDs sample_streamer ⊆ pastEventIDs s'
    ∧ <["e3" := true]> (pastEventIDs s') = pastEventIDs s'.
Proof.
  eexists. split; [reflexivity |]. split; [by eexists |]. split.
  - exact (proj1 (proj1 C3_ledger_only_grows 3000000000 sample_streamer
                    [CallFetch (describes rolling_service) 100; CallNotify;
                     CallFetch (describes rolling_service) 200] _ eq_refl)).
  - exact (proj2 C3_ledger_only_grows 3000000000 "cluster" "service" 10
             [CallFetch (describes rolling_service) 100; CallNotify;
              CallFetch (describes rolling_service) 200] _ "e3" eq_refl
             (ex_intro _ true eq_refl)).
Defined.

Lemma sample_deployment_well_formed (status : string) (desired running : Z) :
  well_formed (sample_deployment status desired running).
Proof.
  exists "arn:aws:ecs:us-west-2:1111:task-definition",
    "webapp-test-frontend", "3".
  split; reflexivity.
Qed.

(** C1, as amended: along every sequence of calls the Completion Signal goes
    from open to signaled at most once, and a call that returns leaves a
    signaled signal signaled. A [Fetch] that observes a deployment with
    status [PRIMARY] and desired count equal to running count signals when
    the signal is open (the describe result being well formed, with one such
    deployment); when the signal is signaled already it does not return: it
    panics, on closing the closed channel when the identifiers are well
    formed. Signaling is not guarded. *)
Theorem C1_signal_given_once (interval : Z) :
  (∀ s cs,
     (signal_transitions (signaled s :: (signaled <$> states interval s cs))
      ≤ 1)%nat)
  ∧ (∀ s c s',
       step interval s c = Returned s' →
       signaled s = true → signaled s' = true)
  ∧ (∀ client now s out,
       client (cluster s) (service s) = inl out →
       signaled s = false →
       Forall well_formed (ecs.Deployments out) →
       length (List.filter completed_primary (ecs.Deployments out)) = 1%nat →
       ∃ s' r,
         Fetch interval client now s = Returned (s', r)
         ∧ signaled s' = true)
  ∧ (∀ client now s out,
       client (cluster s) (service s) = inl out →
       signaled s = true →
       Exists (fun d => completed_primary d = true) (ecs.Deployments out) →
       returns (Fetch interval client now s) = false
       ∧ (Forall well_formed (ecs.Deployments out) →
          Fetch interval client now s = Panicked CloseOfClosedChannel)).
Proof.
  split; [apply signal_transitions_le_1 |].
  split; [intros s c s'; apply step_signaled |]. split.
  - intros client now s out Hout Hopen Hwf Hone.
    destruct (fetch_deployments_returns (ecs.Deployments out) ([], done s) Hwf)
      as (acc & Hacc & _ & Hdone); [right; by split |].
    unfold Fetch. rewrite Hout, Hacc. simpl.
    eexists _, _. split; [reflexivity |].
    unfold signaled, Done. simpl. rewrite Hdone.
    assert (existsb completed_primary (ecs.Deployments out) = true) as ->;
      [| by rewrite orb_true_r].
    destruct (List.filter completed_primary (ecs.Deployments out))
      as [|d l] eqn:Hf; [done |].
    assert (In d (List.filter completed_primary (ecs.Deployments out)))
      as Hin by (rewrite Hf; by left).
    apply filter_In in Hin. apply existsb_exists. by exists d.
  - intros client now s out Hout Hs Hex. unfold Fetch. rewrite Hout. split.
    + pose proof (fetch_deployments_closed_panics (ecs.Deployments out)
                    ([], done s) Hs Hex) as Hp.
      by destruct (fetch_deployments _ _).
    + intros Hwf.
      by rewrite (fetch_deployments_closed_panic (ecs.Deployments out)
                    ([], done s) Hs Hwf Hex).
Qed.

Lemma C1_signal_given_once_witness :
  ∃ s1 r,
    Fetch 3000000000 (describes completed_service) 100 sample_streamer
    = Returned (s1, r)
    ∧ signaled s1 = true
    ∧ Exists (fun d => completed_primary d = true)
        (ecs.Deployments completed_service)
    ∧ returns (Fetch 3000000000 (describes completed_service) 200 s1) = false.
Proof.
  eexists _, _. split; [reflexivity |]. split; [reflexivity |].
  assert (Hex : Exists (fun d => completed_primary d = true)
                  (ecs.Deployments completed_service))
    by (apply Exists_cons_hd; reflexivity).
  split; [exact Hex |].
  apply (proj2 (proj2 (proj2 (C1_signal_given_once 3000000000)))
           (describes completed_service) 200 _ completed_service);
    [reflexivity | reflexivity | exact Hex].
Defined.

(** C1 as stated fails: the primary deployment is observed complete by two
    calls of [Fetch]; the first signals, the second panics. *)
Lemma C1_second_signal_panics :
  signaled <$> states 3000000000 sample_streamer
                 [CallFetch (describes completed_service) 100] = [true]
  ∧ run 3000000000 sample_streamer
      [CallFetch (describes completed_service) 100; CallNotify;
       CallFetch (describes completed_service) 200]
    = Panicked CloseOfClosedChannel.
Proof. split; reflexivity. Qed.

(** C9, as amended: on a describe result whose task-definition identifiers
    are well formed, [Fetch] returns, with no error and the next time of
    call, when no deployment has status [PRIMARY] and desired count equal to
    running count, or when one has and the Completion Signal is open; and
    [Fetch] returns an error only when the describe call does. *)
Theorem C9_Fetch_returns_on_well_formed (interval : Z) :
  (∀ client now s out,
     client (cluster s) (service s) = inl out →
     Forall well_formed (ecs.Deployments out) →
     length (List.filter completed_primary (ecs.Deployments out)) = 0%nat
     ∨ (length (List.filter completed_primary (ecs.Deployments out)) = 1%nat
        ∧ signaled s = false) →
     ∃ s', Fetch interval client now s
           = Returned (s', (time_Add now interval, None)))
  ∧ (∀ client now s s' next e,
       Fetch interval client now s = Returned (s', (next, Some e)) →
       ∃ err, client (cluster s) (service s) = inr err
              ∧ e = Errorf_w "fetch service description" err).
Proof.
  split.
  - intros client now s out Hout Hwf Hcount.
    destruct (fetch_deployments_returns (ecs.Deployments out) ([], done s) Hwf)
      as (acc & Hacc & _); [done |].
    unfold Fetch. rewrite Hout, Hacc. simpl. by eexists.
  - intros client now s s' next e HF.
    destruct (client (cluster s) (service s)) as [out | err] eqn:Hc.
    + by destruct (Fetch_Returned_inv _ _ _ _ _ _ _ Hc HF)
        as (acc & _ & _ & _ & _ & _ & _ & _ & _ & ?).
    + rewrite (Fetch_error _ _ _ _ _ Hc) in HF. exists err.
      split; [done |]. by injection HF as _ _ <-.
Qed.

Lemma C9_Fetch_returns_on_well_formed_witness :
  Forall well_formed (ecs.Deployments completed_service)
  ∧ length (List.filter completed_primary (ecs.Deployments completed_service))
    = 1%nat
  ∧ signaled sample_streamer = false
  ∧ ∃ s', Fetch 3000000000 (describes completed_service) 100 sample_streamer
          = Returned (s', (time_Add 100 3000000000, None)).
Proof.
  assert (Hwf : Forall well_formed (ecs.Deployments completed_service))
    by (apply Forall_singleton, sample_deployment_well_formed).
  split; [exact Hwf |]. split; [reflexivity |]. split; [reflexivity |].
  exact (proj1 (C9_Fetch_returns_on_well_formed 3000000000)
           (describes completed_service) 100 sample_streamer
           completed_service eq_refl Hwf (or_intror (conj eq_refl eq_refl))).
Defined.

(** C9 as stated fails: the describe result is well formed and the
    streamer is the one a first [Fetch] has left, yet the second [Fetch]
    panics. *)
Lemma C9_well_formed_Fetch_panics :
  Forall well_formed (ecs.Deployments completed_service)
  ∧ ∃ s1 r,
      Fetch 3000000000 (describes completed_service) 100 sample_streamer
      = Returned (s1, r)
      ∧ Fetch 3000000000 (describes completed_service) 200 s1
        = Panicked CloseOfClosedChannel.
Proof.
  split; [apply Forall_singleton, sample_deployment_well_formed |].
  eexists _, _. split; reflexivity.
Qed.

(** ** [Notify] *)

Section notify_facts.

Lemma delivered_nil (sub : chan ECSService) :
  chan_closed sub = false → delivered [] sub = sub.
Proof.
  destruct sub as [closed sent]. simpl. intros ->.
  unfold delivered. simpl. by rewrite app_nil_r.
Qed.

Lemma delivered_app (events events' : list ECSService)
    (sub : chan ECSService) :
  delivered events' (delivered events sub) = delivered (events ++ events') sub.
Proof. unfold delivered. simpl. by rewrite app_assoc. Qed.

Lemma notify_event_open (event : ECSService) (subs : list (chan ECSService)) :
  Forall (fun sub => chan_closed sub = false) subs →
  notify_event event subs = Returned (delivered [event] <$> subs).
Proof.
  induction subs as [|sub subs IH]; intros Hopen; [done |].
  apply Forall_cons in Hopen as [Hsub Hsubs].
  cbn [notify_event]. unfold send. rewrite Hsub. simpl.
  by rewrite (IH Hsubs).
Qed.

Lemma notify_events_open (events : list ECSService)
    (subs : list (chan ECSService)) :
  Forall (fun sub => chan_closed sub = false) subs →
  notify_events events subs = Returned (delivered events <$> subs).
Proof.
  revert subs. induction events as [|event events IH]; intros subs Hopen.
  - simpl. unfold mret, outcome_ret. f_equal.
    induction Hopen as [|sub subs Hsub _ IH]; [done |].
    by rewrite fmap_cons, delivered_nil, <- IH.
  - cbn [notify_events]. rewrite notify_event_open by done. simpl.
    rewrite IH.
    + f_equal. rewrite <- list_fmap_compose. apply list_fmap_ext.
      intros i sub _. simpl. by rewrite delivered_app.
    + apply Forall_fmap. by apply Forall_true.
Qed.

Lemma notify_events_no_subscriber (events : list ECSService) :
  notify_events events [] = Returned [].
Proof. induction events as [|event events IH]; [done | exact IH]. Qed.

(** A send that reaches a closed listener, as after [Close], panics. *)
Lemma notify_events_closed_panics (event : ECSService)
    (events : list ECSService) (subs : list (chan ECSService)) :
  Exists (fun sub => chan_closed sub = true) subs →
  notify_events (event :: events) subs = Panicked SendOnClosedChannel.
Proof.
  intros Hex. cbn [notify_events].
  assert (notify_event event subs = Panicked SendOnClosedChannel) as ->;
    [| done].
  induction Hex as [sub subs Hsub | sub subs _ IH].
  - cbn [notify_event]. unfold send. by rewrite Hsub.
  - cbn [notify_event]. unfold send.
    destruct (chan_closed sub); [done |]. simpl. by rewrite IH.
Qed.

(** Every listener is open, or one of them is closed. *)
Lemma open_or_closed (subs : list (chan ECSService)) :
  Forall (fun sub => chan_closed sub = false) subs
  ∨ Exists (fun sub => chan_closed sub = true) subs.
Proof.
  induction subs as [|sub subs [IH | IH]].
  - left. constructor.
  - destruct (chan_closed sub) eqn:Hsub.
    + right. by apply Exists_cons_hd.
    + left. by constructor.
  - right. by apply Exists_cons_tl.
Qed.


End notify_facts.




(** C10: without a registered listener, [Notify] returns the streamer with
    an empty buffer and nothing else changed: no snapshot is sent, and the
    streamer that is left, hence the outcome of every later sequence of
    calls with all that its listeners are sent, is the same whatever the
    buffer held. *)
Theorem C10_Notify_without_listener_drops_buffer (interval : Z)
    (s : ECSDeploymentStreamer) :
  subscribers s = [] →
  Notify s = Returned (with_buffer s [])
  ∧ subscribers (with_buffer s []) = []
  ∧ eventsToFlush (with_buffer s []) = []
  ∧ (∀ buffer, Notify (with_buffer s buffer) = Notify s)
  ∧ (∀ buffer cs,
       (Notify (with_buffer s buffer) ≫= fun s1 => run interval s1 cs)
       = run interval (with_buffer s []) cs).
Proof.
  intros Hsubs.
  assert (HN : ∀ buffer, Notify (with_buffer s buffer)
                         = Returned (with_buffer s [])).
  { intros buffer. unfold Notify, with_buffer. simpl.
    by rewrite Hsubs, notify_events_no_subscriber. }
  assert (Hs : Notify s = Returned (with_buffer s [])).
  { unfold Notify, with_buffer.
    by rewrite Hsubs, notify_events_no_subscriber. }
  split; [done |]. split; [done |]. split; [done |]. split.
  - intros buffer. by rewrite HN, Hs.
  - intros buffer cs. by rewrite HN.
Qed.

Lemma C10_Notify_without_listener_drops_buffer_witness :
  subscribers no_listener_one_snapshot = []
  ∧ length (eventsToFlush no_listener_one_snapshot) = 1%nat
  ∧ Notify no_listener_one_snapshot
    = Returned (with_buffer no_listener_one_snapshot [])
  ∧ (run 3000000000 no_listener_one_snapshot
       [CallNotify; CallSubscribe; CallNotify]
     ≫= fun s => mret (chan_sent <$> subscribers s)) = Returned [[]].
Proof.
  split; [reflexivity |]. split; [reflexivity |].
  split; [| reflexivity].
  exact (proj1 (C10_Notify_without_listener_drops_buffer 3000000000
                  no_listener_one_snapshot eq_refl)).
Defined.

(** ** The scenarios of the specification *)

(** One [Fetch] that sees the primary deployment with three tasks desired
    and three running: the signal is given, and the buffered snapshot has
    one deployment and no failure message. *)
Example scenario_completed_deployment :
  (Fetch 3000000000 (describes completed_service) 100 sample_streamer
   ≫= fun r =>
        mret (signaled r.1,
              (fun snapshot => (length (Deployments snapshot),
                                LatestFailureEvents snapshot))
                <$> eventsToFlush r.1))
  = Returned (true, [(1%nat, [])]).
Proof. reflexivity. Qed.

(** The same events described twice: the failure is reported by the first
    snapshot and not by the second. *)
Example scenario_failure_reported_once :
  LatestFailureEvents
    <$> eventsToFlush
          (streamer_after [CallFetch (describes rolling_service) 100;
                           CallFetch (describes rolling_service) 200])
  = [["task failed to start"]; []].
Proof. reflexivity. Qed.

(** Two listeners and two snapshots: [Notify] sends both snapshots to both
    listeners, in order, and empties the buffer; [Close] then closes both
    listeners. *)
Example scenario_two_listeners :
  ∃ s s',
    Notify two_listeners_two_snapshots = Returned s
    ∧ eventsToFlush s = []
    ∧ chan_sent <$> subscribers s
      = [eventsToFlush two_listeners_two_snapshots;
         eventsToFlush two_listeners_two_snapshots]
    ∧ Close s = Returned s'
    ∧ chan_closed <$> subscribers s' = [true; true].
Proof. eexists _, _. repeat split; reflexivity. Qed.

(** * Further properties of the streamer *)

(** ** Listeners: [Subscribe], [Notify] and [Close] *)

Section listeners.

Lemma close_all_open (subs : list (chan ECSService)) :
  Forall (fun sub => chan_closed sub = false) subs →
  close_all subs = Returned (closed_listener <$> subs).
Proof.
  induction subs as [|sub subs IH]; intros Hopen; [done |].
  apply Forall_cons in Hopen as [Hsub Hsubs].
  cbn [close_all]. unfold close. rewrite Hsub. simpl.
  by rewrite (IH Hsubs).
Qed.

Lemma close_all_closed (subs : list (chan ECSService)) :
  Exists (fun sub => chan_closed sub = true) subs →
  close_all subs = Panicked CloseOfClosedChannel.
Proof.
  intros Hex. induction Hex as [sub subs Hsub | sub subs _ IH].
  - cbn [close_all]. unfold close. by rewrite Hsub.
  - cbn [close_all]. unfold close.
    destruct (chan_closed sub); [done |]. simpl. by rewrite IH.
Qed.

Lemma Close_Returned_inv (s s' : ECSDeploymentStreamer) :
  Close s = Returned s' →
  Forall (fun sub => chan_closed sub = false) (subscribers s)
  ∧ subscribers s' = closed_listener <$> subscribers s
  ∧ eventsToFlush s' = eventsToFlush s.
Proof.
  unfold Close. destruct (open_or_closed (subscribers s)) as [Hopen | Hex].
  - rewrite (close_all_open _ Hopen). by returned.
  - by rewrite (close_all_closed _ Hex).
Qed.

Lemma closed_listeners_closed (subs : list (chan ECSService)) :
  subs ≠ [] →
  Exists (fun sub => chan_closed sub = true) (closed_listener <$> subs).
Proof. destruct subs as [|sub subs]; [done |]. intros _. by left. Qed.

Lemma Notify_empty_buffer (s : ECSDeploymentStreamer) :
  eventsToFlush s = [] → Notify s = Returned s.
Proof. destruct s as [c sv t subs d past flush]. simpl. by intros ->. Qed.

Lemma Notify_Returned_buffer (s s' : ECSDeploymentStreamer) :
  Notify s = Returned s' → eventsToFlush s' = [].
Proof.
  unfold Notify. destruct (notify_events _ _); [| done]. by returned.
Qed.

End listeners.



(** X2: [Close] returns exactly when no listener is closed yet. It then
    closes every listener, keeps what each had been sent, and leaves the
    buffer as it is: snapshots still waiting are not delivered by [Close];
    the ledger and the Completion Signal are untouched. *)
Theorem X2_Close_closes_open_listeners (s : ECSDeploymentStreamer) :
  (Forall (fun sub => chan_closed sub = false) (subscribers s) →
   ∃ s',
     Close s = Returned s'
     ∧ subscribers s' = closed_listener <$> subscribers s
     ∧ eventsToFlush s' = eventsToFlush s
     ∧ pastEventIDs s' = pastEventIDs s
     ∧ done s' = done s)
  ∧ (Exists (fun sub => chan_closed sub = true) (subscribers s) →
     Close s = Panicked CloseOfClosedChannel).
Proof.
  unfold Close. split.
  - intros Hopen. rewrite (close_all_open _ Hopen). by eexists.
  - intros Hex. by rewrite (close_all_closed _ Hex).
Qed.

Lemma X2_Close_closes_open_listeners_witness :
  Forall (fun sub => chan_closed sub = false)
    (subscribers two_listeners_two_snapshots)
  ∧ ∃ s',
      Close two_listeners_two_snapshots = Returned s'
      ∧ subscribers s'
        = closed_listener <$> subscribers two_listeners_two_snapshots
      ∧ eventsToFlush s' = eventsToFlush two_listeners_two_snapshots
      ∧ pastEventIDs s' = pastEventIDs two_listeners_two_snapshots
      ∧ done s' = done two_listeners_two_snapshots.
Proof.
  assert (Hopen : Forall (fun sub : chan ECSService => chan_closed sub = false)
                    (subscribers two_listeners_two_snapshots))
    by (repeat constructor).
  split; [exact Hopen |].
  exact (proj1 (X2_Close_closes_open_listeners two_listeners_two_snapshots)
           Hopen).
Defined.

(** X3: [Close] is not to be called twice: once it has returned on a
    streamer with a listener, a second [Close] panics on closing a closed
    channel. *)
Theorem X3_Close_twice_panics (s s' : ECSDeploymentStreamer) :
  Close s = Returned s' →
  subscribers s ≠ [] →
  Close s' = Panicked CloseOfClosedChannel.
Proof.
  intros HC Hne. apply Close_Returned_inv in HC as (_ & Hsubs & _).
  unfold Close. rewrite Hsubs.
  by rewrite (close_all_closed _ (closed_listeners_closed _ Hne)).
Qed.

Lemma X3_Close_twice_panics_witness :
  ∃ s',
    Close two_listeners_two_snapshots = Returned s'
    ∧ Close s' = Panicked CloseOfClosedChannel.
Proof.
  eexists. split; [reflexivity |].
  apply (X3_Close_twice_panics two_listeners_two_snapshots);
    [reflexivity | discriminate].
Defined.

(** X4: after [Close], a [Notify] that finds a snapshot in the buffer and a
    listener panics on sending on a closed channel; with an empty buffer it
    returns and changes nothing. *)
Theorem X4_Notify_after_Close (s s' : ECSDeploymentStreamer) :
  Close s = Returned s' →
  subscribers s ≠ [] →
  (eventsToFlush s ≠ [] → Notify s' = Panicked SendOnClosedChannel)
  ∧ (eventsToFlush s = [] → Notify s' = Returned s').
Proof.
  intros HC Hne. apply Close_Returned_inv in HC as (_ & Hsubs & Hflush).
  split.
  - intros Hbuf. unfold Notify. rewrite Hsubs, Hflush.
    destruct (eventsToFlush s) as [|event events]; [done |].
    by rewrite (notify_events_closed_panics _ _ _
                  (closed_listeners_closed _ Hne)).
  - intros Hbuf. apply Notify_empty_buffer. by rewrite Hflush.
Qed.

Lemma X4_Notify_after_Close_witness :
  ∃ s',
    Close two_listeners_two_snapshots = Returned s'
    ∧ Notify s' = Panicked SendOnClosedChannel.
Proof.
  eexists. split; [reflexivity |].
  apply (proj1 (X4_Notify_after_Close two_listeners_two_snapshots _
                  eq_refl ltac:(discriminate))).
  discriminate.
Defined.

(** X5: a [Notify] right after a [Notify] that returned has nothing to
    deliver: it returns the streamer unchanged, so no snapshot is delivered
    twice. *)
Theorem X5_Notify_twice (s s' : ECSDeploymentStreamer) :
  Notify s = Returned s' → Notify s' = Returned s'.
Proof.
  intros HN. apply Notify_empty_buffer. by eapply Notify_Returned_buffer.
Qed.

Lemma X5_Notify_twice_witness :
  ∃ s',
    Notify two_listeners_two_snapshots = Returned s'
    ∧ Notify s' = Returned s'.
Proof.
  eexists. split; [reflexivity |].
  apply (X5_Notify_twice two_listeners_two_snapshots). reflexivity.
Defined.

(** ** The parser on other identifiers *)

Section parser.
Import strings strings_facts split_facts.

Lemma parseRevision_no_slash (arn : string) :
  no_byte "/" arn →
  parseRevisionFromTaskDefARN arn = Panicked (IndexOutOfRange 1 1).
Proof.
  intros Harn. unfold parseRevisionFromTaskDefARN.
  by rewrite Split_absent.
Qed.

End parser.

(** X6: an identifier without [/], the empty identifier of a nil pointer
    among them, makes the parser panic, index 1 being out of range; so does
    an identifier whose segment after the first [/] has no [:], whether or
    not another [/] follows the segment. *)
Theorem X6_parseRevision_panics (pre segment rest : string) :
  no_byte "/" pre → no_byte "/" segment → no_byte ":" segment →
  parseRevisionFromTaskDefARN pre = Panicked (IndexOutOfRange 1 1)
  ∧ parseRevisionFromTaskDefARN (pre +:+ "/" +:+ segment)
    = Panicked (IndexOutOfRange 1 1)
  ∧ parseRevisionFromTaskDefARN (pre +:+ "/" +:+ segment +:+ "/" +:+ rest)
    = Panicked (IndexOutOfRange 1 1).
Proof.
  intros Hpre Hs Hc. split; [by apply parseRevision_no_slash |].
  unfold parseRevisionFromTaskDefARN.
  repeat progress change ("/" +:+ ?x) with (String "/" x).
  split.
  - rewrite strings_facts.Split_first by done.
    rewrite (strings_facts.Split_absent "/" segment) by done. simpl.
    by rewrite strings_facts.Split_absent.
  - rewrite strings_facts.Split_first by done.
    rewrite strings_facts.Split_first by done. simpl.
    by rewrite strings_facts.Split_absent.
Qed.

Lemma X6_parseRevision_panics_witness :
  parseRevisionFromTaskDefARN "" = Panicked (IndexOutOfRange 1 1)
  ∧ parseRevisionFromTaskDefARN ("" +:+ "/" +:+ "webapp")
    = Panicked (IndexOutOfRange 1 1)
  ∧ parseRevisionFromTaskDefARN ("" +:+ "/" +:+ "webapp" +:+ "/" +:+ "a:3")
    = Panicked (IndexOutOfRange 1 1).
Proof.
  exact (X6_parseRevision_panics "" "webapp" "a:3" eq_refl eq_refl eq_refl).
Defined.

(** X7: the parser reads the text between the first [/] and the next, and
    in it the text between the first [:] and the next: what follows a second
    [:] of that segment, or a second [/] of the identifier, is ignored. *)
Theorem X7_parseRevision_ignores_the_rest (pre family revision more : string) :
  no_byte "/" pre →
  no_byte "/" family → no_byte ":" family →
  no_byte "/" revision → no_byte ":" revision →
  (no_byte "/" more →
   parseRevisionFromTaskDefARN
     (pre +:+ "/" +:+ family +:+ ":" +:+ revision +:+ ":" +:+ more)
   = Returned revision)
  ∧ parseRevisionFromTaskDefARN
      (pre +:+ "/" +:+ (family +:+ ":" +:+ revision) +:+ "/" +:+ more)
    = Returned revision.
Proof.
  intros Hpre Hfs Hfc Hrs Hrc. unfold parseRevisionFromTaskDefARN.
  repeat progress change ("/" +:+ ?x) with (String "/" x).
  repeat progress change (":" +:+ ?x) with (String ":" x).
  assert (Hfr : no_byte "/" (family +:+ String ":" revision)).
  { apply split_facts.no_byte_app; [done |].
    by apply split_facts.no_byte_cons. }
  split.
  - intros Hmore. rewrite strings_facts.Split_first by done.
    rewrite strings_facts.Split_absent.
    + simpl. by rewrite !strings_facts.Split_first.
    + apply split_facts.no_byte_app; [done |].
      apply split_facts.no_byte_cons; [done |].
      apply split_facts.no_byte_app; [done |].
      by apply split_facts.no_byte_cons.
  - rewrite !strings_facts.Split_first by done. simpl.
    rewrite strings_facts.Split_first by done.
    by rewrite strings_facts.Split_absent.
Qed.

Lemma X7_parseRevision_ignores_the_rest_witness :
  parseRevisionFromTaskDefARN
    ("arn:aws:ecs:us-west-2:1111:task-definition" +:+ "/" +:+ "webapp"
     +:+ ":" +:+ "3" +:+ ":" +:+ "4:5")
  = Returned "3"
  ∧ parseRevisionFromTaskDefARN
      ("arn:aws:ecs:us-west-2:1111:task-definition" +:+ "/"
       +:+ ("webapp" +:+ ":" +:+ "3") +:+ "/" +:+ "4:5")
    = Returned "3".
Proof.
  split.
  - exact (proj1 (X7_parseRevision_ignores_the_rest
                    "arn:aws:ecs:us-west-2:1111:task-definition" "webapp" "3"
                    "4:5" eq_refl eq_refl eq_refl eq_refl eq_refl) eq_refl).
  - exact (proj2 (X7_parseRevision_ignores_the_rest
                    "arn:aws:ecs:us-west-2:1111:task-definition" "webapp" "3"
                    "4:5" eq_refl eq_refl eq_refl eq_refl eq_refl)).
Defined.

(** X8: a message in which a failure message occurs is a failure message:
    text around a keyword never hides it. *)
Theorem X8_failure_survives_context (msg pre post : string) :
  isFailureServiceEvent msg = true →
  isFailureServiceEvent (pre +:+ msg +:+ post) = true.
Proof.
  unfold isFailureServiceEvent. rewrite !existsb_exists.
  intros (kw & Hin & Hkw). exists kw. split; [done |].
  apply strings_facts.Contains_spec in Hkw as (a & b & ->).
  apply strings_facts.Contains_spec. exists (pre +:+ a), (b +:+ post).
  by rewrite !strings_facts.app_assoc.
Qed.

Lemma X8_failure_survives_context_witness :
  isFailureServiceEvent "unable to place" = true
  ∧ isFailureServiceEvent
      ("(service web) was " +:+ "unable to place" +:+ " a task.") = true.
Proof.
  split; [reflexivity |].
  exact (X8_failure_survives_context "unable to place" "(service web) was "
           " a task." eq_refl).
Defined.

(** ** [Fetch]: the deployments of the snapshot and the signal *)

Section snapshot.

(** A loop over the deployments that returns has appended one deployment
    for each deployment of the description, in order, and [done] is then
    closed exactly when it was or a deployment completes the rollout. *)
Lemma fetch_deployments_Returned (deployments : list ecs.Deployment)
    (acc acc' : list ECSDeployment * chan unit) :
  fetch_deployments deployments acc = Returned acc' →
  (∃ new,
     acc'.1 = acc.1 ++ new
     ∧ Forall2
         (fun d e =>
            ∃ revision,
              parseRevisionFromTaskDefARN
                (aws.StringValue (ecs.TaskDefinition d)) = Returned revision
              ∧ e = normalized d revision)
         deployments new)
  ∧ chan_closed acc'.2
    = chan_closed acc.2 || existsb completed_primary deployments.
Proof.
  revert acc. induction deployments as [|d ds IH]; intros acc.
  { returned. split; [| by rewrite orb_false_r].
    exists []. split; [by rewrite app_nil_r | constructor]. }
  cbn [fetch_deployments]. rewrite fetch_deployment_unfold.
  destruct (parseRevisionFromTaskDefARN _) as [revision | p] eqn:Hrev;
    [| done].
  simpl. destruct (completed_primary d) eqn:Hd.
  - unfold close. destruct (chan_closed acc.2) eqn:Hopen; [done |].
    simpl. intros Hret.
    apply IH in Hret as [(new & Hnew & Hall) Hdone]. simpl in *. split.
    + exists (normalized d revision :: new).
      split; [by rewrite Hnew, <- app_assoc |].
      constructor; [by exists revision | done].
    + done.
  - simpl. intros Hret.
    apply IH in Hret as [(new & Hnew & Hall) Hdone]. simpl in *. split.
    + exists (normalized d revision :: new).
      split; [by rewrite Hnew, <- app_assoc |].
      constructor; [by exists revision | done].
    + done.
Qed.

Lemma fetch_deployments_unparsable (deployments : list ecs.Deployment)
    (acc : list ECSDeployment * chan unit) :
  Exists
    (fun d =>
       returns (parseRevisionFromTaskDefARN
                  (aws.StringValue (ecs.TaskDefinition d))) = false)
    deployments →
  returns (fetch_deployments deployments acc) = false.
Proof.
  intros Hex. pose proof (fetch_deployments_Returned deployments acc) as H.
  destruct (fetch_deployments deployments acc) as [acc' |]; [| done].
  destruct (H acc' eq_refl) as [(new & _ & Hall) _].
  exfalso. clear H. induction Hall as [|d e ds new (rev & Hrev & _) _ IH].
  - by apply Exists_nil in Hex.
  - apply Exists_cons in Hex as [Hd | Hds]; [| by apply IH].
    by rewrite Hrev in Hd.
Qed.

(** Two deployments that complete the rollout, or one when [done] is closed,
    make the loop panic. *)
Lemma fetch_deployments_second_close (deployments : list ecs.Deployment)
    (acc : list ECSDeployment * chan unit) :
  Forall well_formed deployments →
  (2 ≤ length (List.filter completed_primary deployments))%nat →
  fetch_deployments deployments acc = Panicked CloseOfClosedChannel.
Proof.
  revert acc. induction deployments as [|d ds IH]; intros acc Hwf Hcount.
  { simpl in Hcount. lia. }
  apply Forall_cons in Hwf as [(pre & family & revision & Hd) Hwf].
  cbn [fetch_deployments]. rewrite fetch_deployment_unfold.
  rewrite (parseRevision_shape _ _ _ _ Hd).
  simpl in *. destruct (completed_primary d) eqn:Hc; simpl in *.
  - unfold close. destruct (chan_closed acc.2); [done |]. simpl.
    apply fetch_deployments_closed_panic; [done | done |].
    destruct (List.filter completed_primary ds) as [|d' l] eqn:Hf;
      [simpl in Hcount; lia |].
    assert (In d' (List.filter completed_primary ds)) as Hin
      by (rewrite Hf; by left).
    apply filter_In in Hin as [Hin Hd']. apply Exists_exists.
    exists d'. split; [by apply list_elem_of_In | done].
  - by apply IH.
Qed.

End snapshot.

(** X9: the snapshot that a returning [Fetch] appends to the buffer has one
    deployment for each deployment of the description, in the same order,
    with the status, the counts and the rollout state read through the
    pointers (empty or zero for a nil pointer) and the revision parsed from
    the task definition; listeners and configuration are left as they
    were. *)
Theorem X9_Fetch_snapshot_deployments (interval : Z)
    (client : ECSServiceDescriber) (now : time_Time)
    (s s' : ECSDeploymentStreamer) (out : ecs.Service)
    (r : time_Time * option error) :
  client (cluster s) (service s) = inl out →
  Fetch interval client now s = Returned (s', r) →
  ∃ snapshot,
    eventsToFlush s' = eventsToFlush s ++ [snapshot]
    ∧ Forall2
        (fun d e =>
           Status e = aws.StringValue (ecs.Status d)
           ∧ parseRevisionFromTaskDefARN
               (aws.StringValue (ecs.TaskDefinition d))
             = Returned (TaskDefRevision e)
           ∧ DesiredCount e = aws.Int64Value (ecs.DesiredCount d)
           ∧ RunningCount e = aws.Int64Value (ecs.RunningCount d)
           ∧ FailedCount e = aws.Int64Value (ecs.FailedTasks d)
           ∧ PendingCount e = aws.Int64Value (ecs.PendingCount d)
           ∧ RolloutState e = aws.StringValue (ecs.RolloutState d))
        (ecs.Deployments out) (Deployments snapshot)
    ∧ subscribers s' = subscribers s
    ∧ cluster s' = cluster s ∧ service s' = service s
    ∧ deploymentCreationTime s' = deploymentCreationTime s.
Proof.
  intros Hout HF.
  destruct (Fetch_Returned_inv _ _ _ _ _ _ _ Hout HF)
    as (acc & Hacc & Hc & Hsv & Ht & Hsubs & _ & _ & Hflush & _).
  apply fetch_deployments_Returned in Hacc as [(new & Hnew & Hall) _].
  simpl in Hnew. eexists. split; [exact Hflush |]. simpl.
  split; [| done]. rewrite Hnew.
  eapply Forall2_impl; [exact Hall |].
  intros d e (revision & Hrev & ->). by repeat split.
Qed.

Lemma X9_Fetch_snapshot_deployments_witness :
  ∃ s' r,
    Fetch 3000000000 (describes rolling_service) 100 sample_streamer
    = Returned (s', r)
    ∧ ∃ snapshot,
        eventsToFlush s' = eventsToFlush sample_streamer ++ [snapshot]
        ∧ Forall2
            (fun d e =>
               Status e = aws.StringValue (ecs.Status d)
               ∧ parseRevisionFromTaskDefARN
                   (aws.StringValue (ecs.TaskDefinition d))
                 = Returned (TaskDefRevision e)
               ∧ DesiredCount e = aws.Int64Value (ecs.DesiredCount d)
               ∧ RunningCount e = aws.Int64Value (ecs.RunningCount d)
               ∧ FailedCount e = aws.Int64Value (ecs.FailedTasks d)
               ∧ PendingCount e = aws.Int64Value (ecs.PendingCount d)
               ∧ RolloutState e = aws.StringValue (ecs.RolloutState d))
            (ecs.Deployments rolling_service) (Deployments snapshot)
        ∧ subscribers s' = subscribers sample_streamer
        ∧ cluster s' = cluster sample_streamer
        ∧ service s' = service sample_streamer
        ∧ deploymentCreationTime s' = deploymentCreationTime sample_streamer.
Proof.
  eexists _, _. split; [reflexivity |].
  exact (X9_Fetch_snapshot_deployments 3000000000 (describes rolling_service)
           100 sample_streamer _ rolling_service _ eq_refl eq_refl).
Defined.

(** X10: when the describe call succeeds and the task definition of some
    deployment does not parse (a nil pointer, no [/], no [:] in the segment
    read), [Fetch] does not return: it panics. *)
Theorem X10_Fetch_unparsable_identifier (interval : Z)
    (client : ECSServiceDescriber) (now : time_Time)
    (s : ECSDeploymentStreamer) (out : ecs.Service) :
  client (cluster s) (service s) = inl out →
  Exists
    (fun d =>
       returns (parseRevisionFromTaskDefARN
                  (aws.StringValue (ecs.TaskDefinition d))) = false)
    (ecs.Deployments out) →
  returns (Fetch interval client now s) = false
  ∧ ∃ p, Fetch interval client now s = Panicked p.
Proof.
  intros Hout Hex. unfold Fetch. rewrite Hout.
  pose proof (fetch_deployments_unparsable _ ([], done s) Hex) as Hp.
  destruct (fetch_deployments _ _) as [acc | p]; [done |].
  split; [done | by exists p].
Qed.

Lemma X10_Fetch_unparsable_identifier_witness :
  Exists
    (fun d =>
       returns (parseRevisionFromTaskDefARN
                  (aws.StringValue (ecs.TaskDefinition d))) = false)
    (ecs.Deployments unparsable_service)
  ∧ returns (Fetch 3000000000 (describes unparsable_service) 100
               sample_streamer) = false
  ∧ ∃ p, Fetch 3000000000 (describes unparsable_service) 100 sample_streamer
         = Panicked p.
Proof.
  assert (Hex : Exists
                  (fun d =>
                     returns (parseRevisionFromTaskDefARN
                                (aws.StringValue (ecs.TaskDefinition d)))
                     = false)
                  (ecs.Deployments unparsable_service))
    by (apply Exists_cons_tl, Exists_cons_hd; reflexivity).
  split; [exact Hex |].
  exact (X10_Fetch_unparsable_identifier 3000000000
           (describes unparsable_service) 100 sample_streamer
           unparsable_service eq_refl Hex).
Defined.

(** X11: after a [Fetch] that returns on a description, the Completion
    Signal is given exactly when it was given before or some deployment of
    the description has status [PRIMARY] and desired count equal to running
    count: a primary deployment still rolling out, or a completed deployment
    that is not primary, does not signal. *)
Theorem X11_Fetch_signals_on_completed_primary (interval : Z)
    (client : ECSServiceDescriber) (now : time_Time)
    (s s' : ECSDeploymentStreamer) (out : ecs.Service)
    (r : time_Time * option error) :
  client (cluster s) (service s) = inl out →
  Fetch interval client now s = Returned (s', r) →
  signaled s' = signaled s || existsb completed_primary (ecs.Deployments out).
Proof.
  intros Hout HF.
  destruct (Fetch_Returned_inv _ _ _ _ _ _ _ Hout HF)
    as (acc & Hacc & _ & _ & _ & _ & Hdone & _).
  apply fetch_deployments_Returned in Hacc as [_ Hclosed].
  unfold signaled, Done. by rewrite Hdone, Hclosed.
Qed.

Lemma X11_Fetch_signals_on_completed_primary_witness :
  ∃ s' r,
    Fetch 3000000000 (describes rolling_service) 100 sample_streamer
    = Returned (s', r)
    ∧ existsb completed_primary (ecs.Deployments rolling_service) = false
    ∧ signaled s'
      = signaled sample_streamer
        || existsb completed_primary (ecs.Deployments rolling_service).
Proof.
  eexists _, _. split; [reflexivity |]. split; [reflexivity |].
  exact (X11_Fetch_signals_on_completed_primary 3000000000
           (describes rolling_service) 100 sample_streamer _ rolling_service
           _ eq_refl eq_refl).
Defined.

(** X12: only [Fetch] gives the Completion Signal: a call that returns and
    finds the signal open leaves it open, unless it is a [Fetch] whose
    describe call answers with a description in which a primary deployment
    has its desired count running. [Subscribe], [Notify], [Close] and a
    [Fetch] whose describe call fails never signal. *)
Theorem X12_only_Fetch_signals (interval : Z) (s s' : ECSDeploymentStreamer)
    (c : call) :
  step interval s c = Returned s' →
  signaled s = false →
  signaled s' = true →
  ∃ client now out,
    c = CallFetch client now
    ∧ client (cluster s) (service s) = inl out
    ∧ existsb completed_primary (ecs.Deployments out) = true.
Proof.
  unfold signaled, Done. destruct c as [| client now | |]; simpl.
  - returned. simpl. congruence.
  - destruct (Fetch interval client now s) as [[s1 r] |] eqn:HF; [| done].
    returned. intros Hopen Hs'.
    destruct (client (cluster s) (service s)) as [out | err] eqn:Hc.
    + exists client, now, out. split; [done |]. split; [done |].
      destruct (Fetch_Returned_inv _ _ _ _ _ _ _ Hc HF)
        as (acc & Hacc & _ & _ & _ & _ & Hdone & _).
      apply fetch_deployments_Returned in Hacc as [_ Hclosed].
      simpl in Hclosed. rewrite Hdone, Hclosed, Hopen in Hs'. done.
    + rewrite (Fetch_error _ _ _ _ _ Hc) in HF.
      injection HF as <- _. congruence.
  - unfold Notify. destruct (notify_events _ _); [| done].
    returned. simpl. congruence.
  - unfold Close. destruct (close_all _); [| done].
    returned. simpl. congruence.
Qed.

Lemma X12_only_Fetch_signals_witness :
  ∃ s',
    step 3000000000 sample_streamer
      (CallFetch (describes completed_service) 100) = Returned s'
    ∧ signaled sample_streamer = false
    ∧ signaled s' = true
    ∧ ∃ client now out,
        CallFetch (describes completed_service) 100 = CallFetch client now
        ∧ client (cluster sample_streamer) (service sample_streamer) = inl out
        ∧ existsb completed_primary (ecs.Deployments out) = true.
Proof.
  eexists. split; [reflexivity |]. split; [reflexivity |].
  split; [reflexivity |].
  exact (X12_only_Fetch_signals 3000000000 sample_streamer _
           (CallFetch (describes completed_service) 100)
           eq_refl eq_refl eq_refl).
Defined.

(** X13: a description with well-formed identifiers in which two
    deployments have status [PRIMARY] and desired count equal to running
    count makes [Fetch] panic on closing a closed channel, whatever the
    streamer, a new one included. *)
Theorem X13_two_completed_primaries_panic (interval : Z)
    (client : ECSServiceDescriber) (now : time_Time)
    (s : ECSDeploymentStreamer) (out : ecs.Service) :
  client (cluster s) (service s) = inl out →
  Forall well_formed (ecs.Deployments out) →
  (2 ≤ length (List.filter completed_primary (ecs.Deployments out)))%nat →
  Fetch interval client now s = Panicked CloseOfClosedChannel.
Proof.
  intros Hout Hwf Hcount. unfold Fetch. rewrite Hout.
  by rewrite fetch_deployments_second_close.
Qed.

Lemma X13_two_completed_primaries_panic_witness :
  Forall well_formed (ecs.Deployments twice_completed_service)
  ∧ (2 ≤ length (List.filter completed_primary
                   (ecs.Deployments twice_completed_service)))%nat
  ∧ Fetch 3000000000 (describes twice_completed_service) 100 sample_streamer
    = Panicked CloseOfClosedChannel.
Proof.
  assert (Hwf : Forall well_formed (ecs.Deployments twice_completed_service))
    by (repeat constructor; apply sample_deployment_well_formed).
  assert (Hcount : (2 ≤ length (List.filter completed_primary
                             (ecs.Deployments twice_completed_service)))%nat)
    by (simpl; lia).
  split; [exact Hwf |]. split; [exact Hcount |].
  exact (X13_two_completed_primaries_panic 3000000000
           (describes twice_completed_service) 100 sample_streamer
           twice_completed_service eq_refl Hwf Hcount).
Defined.

(** ** [Fetch]: the ledger across calls *)

Section ledger.

(** The events of a description, looked at again with the ledger they have
    left, are all past the stop point. *)
Lemma fetch_events_again (creation : time_Time)
    (events : list ecs.ServiceEvent) (ledger : gmap string bool)
    (failureMsgs failureMsgs' : list string) :
  fetch_events creation events
    (fetch_events creation events ledger failureMsgs).1 failureMsgs'
  = ((fetch_events creation events ledger failureMsgs).1, failureMsgs').
Proof.
  destruct events as [|event events]; [done |]. cbn [fetch_events].
  destruct (Before _ _) eqn:Hbefore; [done |].
  destruct (ledger !! aws.StringValue (ecs.Id event)) as [v |] eqn:Hid.
  { cbn [fst]. by rewrite Hid. }
  match goal with
  | |- context [fetch_events creation events ?m ?f] =>
      pose proof (fetch_events_subseteq creation events m f) as Hsub
  end.
  erewrite lookup_weaken; [done | | exact Hsub]. apply lookup_insert_eq.
Qed.

(** The processed events have new and pairwise distinct identifiers. *)
Lemma processed_fresh (creation : time_Time) (ledger : gmap string bool)
    (processed : list ecs.ServiceEvent) :
  (∀ before event after,
     processed = before ++ event :: after →
     ¬ stops creation (record_ids ledger before) event) →
  NoDup (event_id <$> processed)
  ∧ (∀ id, id ∈ event_id <$> processed → ledger !! id = None)
  ∧ size (record_ids ledger processed)
    = (size ledger + length processed)%nat.
Proof.
  revert ledger. induction processed as [|event processed IH];
    intros ledger Hproc.
  { split; [constructor |]. split; [| simpl; lia].
    intros id Hin. by apply elem_of_nil in Hin. }
  assert (Hevent : ledger !! event_id event = None).
  { specialize (Hproc [] event processed eq_refl). simpl in Hproc.
    apply eq_None_not_Some. intros Hsome. apply Hproc. by right. }
  destruct (IH (<[event_id event := true]> ledger))
    as (Hnodup & Hfresh & Hsize).
  { intros before e after ->.
    rewrite <- record_ids_cons. by apply (Hproc (event :: before) e after). }
  rewrite fmap_cons, record_ids_cons. split; [| split].
  - apply NoDup_cons. split; [| done]. intros Hin.
    apply Hfresh in Hin. by rewrite lookup_insert_eq in Hin.
  - intros id [-> | Hin]%elem_of_cons; [done |].
    apply Hfresh in Hin. apply lookup_insert_None in Hin. tauto.
  - rewrite Hsize, map_size_insert_None by done. simpl. lia.
Qed.

End ledger.

(** X14: when a [Fetch] has returned on a description and the next [Fetch]
    is given the same events, the second processes none of them: the ledger
    stays as the first left it and the snapshot that the second buffers
    reports no failure, so no event is reported twice. *)
Theorem X14_Fetch_same_events_again (interval : Z)
    (client client' : ECSServiceDescriber) (now now' : time_Time)
    (s s1 s2 : ECSDeploymentStreamer) (out out' : ecs.Service)
    (r1 r2 : time_Time * option error) :
  client (cluster s) (service s) = inl out →
  Fetch interval client now s = Returned (s1, r1) →
  client' (cluster s1) (service s1) = inl out' →
  ecs.Events out' = ecs.Events out →
  Fetch interval client' now' s1 = Returned (s2, r2) →
  pastEventIDs s2 = pastEventIDs s1
  ∧ ∃ snapshot,
      eventsToFlush s2 = eventsToFlush s1 ++ [snapshot]
      ∧ LatestFailureEvents snapshot = [].
Proof.
  intros Hout HF Hout' Hev HF'.
  destruct (Fetch_Returned_inv _ _ _ _ _ _ _ Hout HF)
    as (acc & _ & _ & _ & Ht & _ & _ & Hpast & _).
  destruct (Fetch_Returned_inv _ _ _ _ _ _ _ Hout' HF')
    as (acc' & _ & _ & _ & _ & _ & _ & Hpast' & Hflush' & _).
  rewrite Hev, Ht, Hpast, fetch_events_again in Hpast', Hflush'.
  simpl in Hpast', Hflush'. split; [by rewrite Hpast', Hpast |].
  by eexists.
Qed.

Lemma X14_Fetch_same_events_again_witness :
  ∃ s1 r1 s2 r2,
    Fetch 3000000000 (describes rolling_service) 100 sample_streamer
    = Returned (s1, r1)
    ∧ Fetch 3000000000 (describes rolling_service) 200 s1 = Returned (s2, r2)
    ∧ pastEventIDs s2 = pastEventIDs s1
    ∧ ∃ snapshot,
        eventsToFlush s2 = eventsToFlush s1 ++ [snapshot]
        ∧ LatestFailureEvents snapshot = [].
Proof.
  eexists _, _, _, _. split; [reflexivity |]. split; [reflexivity |].
  eapply (X14_Fetch_same_events_again 3000000000 (describes rolling_service)
            (describes rolling_service) 100 200 sample_streamer);
    reflexivity.
Defined.

(** X15: the events that a returning [Fetch] processes have pairwise
    distinct identifiers, none of which the ledger held before the call, and
    the ledger grows by exactly one identifier for each processed event: an
    identifier is never recorded twice. *)
Theorem X15_processed_identifiers_are_new (interval : Z)
    (client : ECSServiceDescriber) (now : time_Time)
    (s s' : ECSDeploymentStreamer) (out : ecs.Service)
    (r : time_Time * option error) :
  client (cluster s) (service s) = inl out →
  Fetch interval client now s = Returned (s', r) →
  ∃ processed rest,
    stop_point (deploymentCreationTime s) (pastEventIDs s) (ecs.Events out)
      processed rest
    ∧ NoDup (event_id <$> processed)
    ∧ (∀ id, id ∈ event_id <$> processed → pastEventIDs s !! id = None)
    ∧ size (pastEventIDs s')
      = (size (pastEventIDs s) + length processed)%nat.
Proof.
  intros Hout HF.
  destruct (Fetch_Returned_inv _ _ _ _ _ _ _ Hout HF)
    as (acc & _ & _ & _ & _ & _ & _ & Hpast & _).
  destruct (fetch_events_stop_point (deploymentCreationTime s)
              (ecs.Events out) (pastEventIDs s) [])
    as (processed & rest & Hstop & Hev).
  rewrite Hev in Hpast. simpl in Hpast.
  exists processed, rest. split; [done |].
  destruct Hstop as (_ & Hproc & _).
  destruct (processed_fresh _ _ _ Hproc) as (Hnodup & Hfresh & Hsize).
  by rewrite Hpast.
Qed.

Lemma X15_processed_identifiers_are_new_witness :
  ∃ s' r,
    Fetch 3000000000 (describes rolling_service) 100 sample_streamer
    = Returned (s', r)
    ∧ ∃ processed rest,
        stop_point (deploymentCreationTime sample_streamer)
          (pastEventIDs sample_streamer) (ecs.Events rolling_service)
          processed rest
        ∧ NoDup (event_id <$> processed)
        ∧ (∀ id, id ∈ event_id <$> processed →
                 pastEventIDs sample_streamer !! id = None)
        ∧ size (pastEventIDs s')
          = (size (pastEventIDs sample_streamer) + length processed)%nat.
Proof.
  eexists _, _. split; [reflexivity |].
  exact (X15_processed_identifiers_are_new 3000000000
           (describes rolling_service) 100 sample_streamer _ rolling_service
           _ eq_refl eq_refl).
Defined.

(** ** A polling loop: nothing is lost between [Fetch] and [Notify] *)

Section streams.

Variable interval : Z.

Lemma streams_extended_refl (s : ECSDeploymentStreamer) :
  Forall (fun sub => chan_closed sub = false) (subscribers s) →
  streams_extended s s [].
Proof.
  intros Hopen. apply Forall_Forall2_diag.
  eapply Forall_impl; [exact Hopen |]. simpl.
  intros sub Hsub. by rewrite app_nil_r.
Qed.

Lemma Forall2_compose {A : Type} (R1 R2 R3 : A → A → Prop) (l k m : list A) :
  (∀ x y z, R1 x y → R2 y z → R3 x z) →
  Forall2 R1 l k → Forall2 R2 k m → Forall2 R3 l m.
Proof.
  intros HR H1. revert m. induction H1 as [|x y l k Hxy _ IH]; intros m H2.
  - inversion H2. constructor.
  - inversion H2 as [|? z ? m' Hyz Hrest]; subst.
    constructor; [by eapply HR | by apply IH].
Qed.

Lemma streams_extended_trans (s s1 s2 : ECSDeploymentStreamer)
    (new new' : list ECSService) :
  streams_extended s s1 new → streams_extended s1 s2 new' →
  streams_extended s s2 (new ++ new').
Proof.
  unfold streams_extended. apply Forall2_compose.
  intros sub sub1 sub2 [_ Hsub] [Hopen Hsub1]. split; [done |].
  by rewrite Hsub1, (app_assoc (chan_sent sub1)), Hsub, <- !app_assoc.
Qed.

Lemma streams_extended_open (s s' : ECSDeploymentStreamer)
    (fetched : list ECSService) :
  streams_extended s s' fetched →
  Forall (fun sub => chan_closed sub = false) (subscribers s').
Proof.
  unfold streams_extended. intros H.
  induction H as [|sub sub' l k [Hopen _] _ IH]; by constructor.
Qed.

(** One call of the loop: a [Fetch] that gets a description adds its
    snapshot to what every listener is to be sent; a [Fetch] that gets an
    error and a [Notify] add nothing and lose nothing. *)
Lemma poll_step (s s1 : ECSDeploymentStreamer) (c : call) :
  Forall (fun sub => chan_closed sub = false) (subscribers s) →
  polls c = true →
  step interval s c = Returned s1 →
  cluster s1 = cluster s ∧ service s1 = service s
  ∧ ∃ new,
      length new
      = (if describe_succeeds (cluster s) (service s) c then 1 else 0)%nat
      ∧ streams_extended s s1 new.
Proof.
  intros Hopen Hc. destruct c as [| client now | |]; try done; simpl.
  - destruct (Fetch interval client now s) as [[s' r] |] eqn:HF; [| done].
    returned.
    destruct (client (cluster s) (service s)) as [out | err] eqn:Hout.
    + destruct (Fetch_Returned_inv _ _ _ _ _ _ _ Hout HF)
        as (acc & _ & Hcl & Hsv & _ & Hsubs & _ & _ & Hflush & _).
      split; [done |]. split; [done |]. eexists [_]. split; [done |].
      unfold streams_extended. rewrite Hsubs, Hflush.
      apply Forall_Forall2_diag. eapply Forall_impl; [exact Hopen |].
      by intros sub Hsub.
    + rewrite (Fetch_error _ _ _ _ _ Hout) in HF. injection HF as <- _.
      split; [done |]. split; [done |]. exists []. split; [done |].
      by apply streams_extended_refl.
  - unfold Notify. rewrite notify_events_open by done.
    returned. split; [done |]. split; [done |].
    exists []. split; [done |]. unfold streams_extended. simpl.
    apply Forall2_fmap_r, Forall_Forall2_diag.
    eapply Forall_impl; [exact Hopen |]. simpl.
    intros sub Hsub. by rewrite !app_nil_r.
Qed.

End streams.

(** X16: in a loop of [Fetch] and [Notify] calls on open listeners, no
    snapshot is lost, duplicated or reordered. When the calls have returned,
    every listener is still open, and what it has been sent followed by what
    waits in the buffer is what it had been sent and what waited at the
    start, followed by one snapshot for each [Fetch] whose describe call
    succeeded; all listeners are extended by the same snapshots. *)
Theorem X16_polling_loop_keeps_every_snapshot (interval : Z)
    (s s' : ECSDeploymentStreamer) (cs : list call) :
  Forall (fun sub => chan_closed sub = false) (subscribers s) →
  Forall (fun c => polls c = true) cs →
  run interval s cs = Returned s' →
  ∃ fetched,
    length fetched
    = length (List.filter (describe_succeeds (cluster s) (service s)) cs)
    ∧ streams_extended s s' fetched.
Proof.
  revert s. induction cs as [|c cs IH]; intros s Hopen Hcs.
  { returned. exists []. split; [done | by apply streams_extended_refl]. }
  apply Forall_cons in Hcs as [Hc Hcs]. cbn [run].
  destruct (step interval s c) as [s1 |] eqn:Hstep; [| done].
  simpl. intros Hrun.
  destruct (poll_step _ _ _ _ Hopen Hc Hstep)
    as (Hcl & Hsv & new & Hnew & Hext).
  destruct (IH s1 (streams_extended_open _ _ _ Hext) Hcs Hrun)
    as (fetched & Hlen & Hext').
  exists (new ++ fetched). split.
  - rewrite length_app, Hnew, Hlen, Hcl, Hsv. simpl.
    by destruct (describe_succeeds (cluster s) (service s) c).
  - by eapply streams_extended_trans.
Qed.

Lemma X16_polling_loop_keeps_every_snapshot_witness :
  ∃ s s',
    run 3000000000 sample_streamer [CallSubscribe; CallSubscribe] = Returned s
    ∧ Forall (fun sub => chan_closed sub = false) (subscribers s)
    ∧ run 3000000000 s
        [CallFetch (describes rolling_service) 100; CallNotify;
         CallFetch (fails_with (errorString "throttled")) 200;
         CallFetch (describes completed_service) 300] = Returned s'
    ∧ ∃ fetched,
        length fetched = 2%nat
        ∧ streams_extended s s' fetched.
Proof.
  eexists _, _. split; [reflexivity |].
  assert (Hopen : Forall (fun sub : chan ECSService => chan_closed sub = false)
                    [make_chan ECSService; make_chan ECSService])
    by (repeat constructor).
  split; [exact Hopen |]. split; [reflexivity |].
  eapply (X16_polling_loop_keeps_every_snapshot 3000000000 _ _
            [CallFetch (describes rolling_service) 100; CallNotify;
             CallFetch (fails_with (errorString "throttled")) 200;
             CallFetch (describes completed_service) 300]);
    [exact Hopen | repeat constructor | reflexivity].
Defined.

(** X17: when the first event of the description stops the processing (it
    is older than the deployment, it has no creation time while the
    deployment was created after the zero time, or its identifier is in the
    ledger), a returning [Fetch] processes nothing: the ledger is unchanged
    and the snapshot reports no failure, whatever events follow the first,
    recent failures included. *)
Theorem X17_first_event_stops_everything (interval : Z)
    (client : ECSServiceDescriber) (now : time_Time)
    (s s' : ECSDeploymentStreamer) (out : ecs.Service)
    (event : ecs.ServiceEvent) (rest : list ecs.ServiceEvent)
    (r : time_Time * option error) :
  client (cluster s) (service s) = inl out →
  ecs.Events out = event :: rest →
  stops (deploymentCreationTime s) (pastEventIDs s) event
  ∨ (ecs.CreatedAt event = None ∧ 0 < deploymentCreationTime s) →
  Fetch interval client now s = Returned (s', r) →
  pastEventIDs s' = pastEventIDs s
  ∧ ∃ snapshot,
      eventsToFlush s' = eventsToFlush s ++ [snapshot]
      ∧ LatestFailureEvents snapshot = [].
Proof.
  intros Hout Hev Hstop HF.
  destruct (Fetch_Returned_inv _ _ _ _ _ _ _ Hout HF)
    as (acc & _ & _ & _ & _ & _ & _ & Hpast & Hflush & _).
  assert (Hnone : fetch_events (deploymentCreationTime s) (ecs.Events out)
                    (pastEventIDs s) [] = (pastEventIDs s, [])).
  { rewrite Hev. cbn [fetch_events]. unfold Before.
    assert (Hstops : stops (deploymentCreationTime s) (pastEventIDs s) event).
    { destruct Hstop as [? | [Hnil Hpos]]; [done |].
      left. by rewrite Hnil. }
    destruct Hstops as [Hlt | [v Hv]].
    - apply Z.ltb_lt in Hlt. by rewrite Hlt.
    - destruct (_ <? _); [done |].
      unfold event_id in Hv. by rewrite Hv. }
  rewrite Hnone in Hpast, Hflush. split; [done |]. by eexists.
Qed.

Lemma X17_first_event_stops_everything_witness :
  ∃ s' r,
    Fetch 3000000000 (describes undated_service) 100 sample_streamer
    = Returned (s', r)
    ∧ pastEventIDs s' = pastEventIDs sample_streamer
    ∧ ∃ snapshot,
        eventsToFlush s' = eventsToFlush sample_streamer ++ [snapshot]
        ∧ LatestFailureEvents snapshot = [].
Proof.
  eexists _, _. split; [reflexivity |].
  eapply (X17_first_event_stops_everything 3000000000
            (describes undated_service) 100 sample_streamer _
            undated_service);
    [reflexivity | reflexivity | right; split; [reflexivity | reflexivity]
    | reflexivity].
Defined.
